(** * linkshoter: a shallow embedding of [app.py]

    The application is a Flask request layer over two SQLite tables
    ([links], [clicks]) plus an APScheduler job that sweeps expired links.
    Handlers are embedded as pure functions from a database state to a new
    database state and a response; a [sqlite3] connection is a pair of the
    committed and the working database, so that [commit], and the commit or
    rollback performed when a [with] block is left, are explicit.

    Strings are byte strings ([Stdlib.Strings.String]): a Python [str] and
    a TEXT value are their UTF-8 bytes; SQLite's BINARY collation is
    [String.compare].  Clock readings are inputs of the handlers; a handler
    is given a database file in which both tables exist.  Resource exhaustion (SQLITE_FULL, a locked database file) is
    outside the model. *)

From Stdlib Require Import ZArith List String Ascii Bool Lia.
From Stdlib Require Import Permutation Sorted Orders Mergesort.
Import ListNotations.

Open Scope string_scope.
Open Scope list_scope.

(* ------------------------------------------------------------------ *)
(** ** Exceptions and fallible computations *)

Inductive exn : Type :=
| ValueError          (* strptime: text does not fit the format;
                         redirect: newline in the Location header *)
| TypeError           (* datetime.strptime: argument is not a str *)
| IntegrityError      (* sqlite3: UNIQUE constraint failed *)
| BadRequestKeyError. (* werkzeug: request.form[...] on a missing field *)

Inductive result (A : Type) : Type :=
| Ok (a : A)
| Raise (e : exn).

Arguments Ok {A} a.
Arguments Raise {A} e.

Definition bind {A B : Type} (m : result A) (k : A -> result B) : result B :=
  match m with
  | Ok a => k a
  | Raise e => Raise e
  end.

Declare Scope result_scope.
Delimit Scope result_scope with result.
Notation "x <- m ;; k" := (bind m (fun x => k))
  (at level 61, m at next level, right associativity) : result_scope.

(* ------------------------------------------------------------------ *)
(** ** Naive datetimes, as Python's [datetime.datetime] *)

Record datetime : Type := mkDatetime {
  year : Z; month : Z; day : Z;
  hour : Z; minute : Z; second : Z; microsecond : Z
}.

(** Python compares two naive datetimes as the tuples of their fields. *)
Definition datetime_key (d : datetime) : list Z :=
  [year d; month d; day d; hour d; minute d; second d; microsecond d].

Fixpoint tuple_compare (a b : list Z) : comparison :=
  match a, b with
  | [], [] => Eq
  | [], _ :: _ => Lt
  | _ :: _, [] => Gt
  | x :: a', y :: b' =>
      match Z.compare x y with
      | Eq => tuple_compare a' b'
      | c => c
      end
  end.

Definition datetime_compare (a b : datetime) : comparison :=
  tuple_compare (datetime_key a) (datetime_key b).

(** [a > b] on datetimes. *)
Definition datetime_gt (a b : datetime) : bool :=
  match datetime_compare a b with Gt => true | _ => false end.

Definition datetime_lt (a b : datetime) : bool :=
  match datetime_compare a b with Lt => true | _ => false end.

Definition is_leap (y : Z) : bool :=
  ((y mod 4 =? 0) && (negb (y mod 100 =? 0) || (y mod 400 =? 0)))%Z.

Definition days_in_month (y m : Z) : Z :=
  (if m =? 2 then (if is_leap y then 29 else 28)
   else if (m =? 4) || (m =? 6) || (m =? 9) || (m =? 11) then 30
   else 31)%Z.

(** The range checks of the [datetime] constructor (MINYEAR = 1,
    MAXYEAR = 9999). *)
Definition valid_date (y m d : Z) : bool :=
  ((1 <=? y) && (y <=? 9999) && (1 <=? m) && (m <=? 12)
   && (1 <=? d) && (d <=? days_in_month y m))%Z.

Definition valid_datetime (t : datetime) : bool :=
  (valid_date (year t) (month t) (day t)
   && (0 <=? hour t) && (hour t <=? 23)
   && (0 <=? minute t) && (minute t <=? 59)
   && (0 <=? second t) && (second t <=? 59)
   && (0 <=? microsecond t) && (microsecond t <=? 999999))%Z.

(* ------------------------------------------------------------------ *)
(** ** Text of a timestamp *)

Definition digit_char (n : Z) : ascii :=
  ascii_of_nat (48 + Z.to_nat (n mod 10)).

Definition pad2 (n : Z) : string :=
  String (digit_char (n / 10)) (String (digit_char n) EmptyString).

Definition pad4 (n : Z) : string :=
  String (digit_char (n / 1000)) (String (digit_char (n / 100)) (pad2 n)).

(** [YYYY-MM-DD] *)
Definition date_text (t : datetime) : string :=
  (pad4 (year t) ++ "-" ++ pad2 (month t) ++ "-" ++ pad2 (day t))%string.

(** SQLite's [datetime('now')] and [CURRENT_TIMESTAMP] at the UTC clock
    reading [t]: [YYYY-MM-DD HH:MM:SS]. *)
Definition sqlite_datetime (t : datetime) : string :=
  (date_text t ++ " " ++ pad2 (hour t) ++ ":" ++ pad2 (minute t)
     ++ ":" ++ pad2 (second t))%string.

(** The value an HTML [datetime-local] field submits, which is the format
    the redirect handler parses: [YYYY-MM-DDTHH:MM]. *)
Definition datetime_local (t : datetime) : string :=
  (date_text t ++ "T" ++ pad2 (hour t) ++ ":" ++ pad2 (minute t))%string.

(* ------------------------------------------------------------------ *)
(** ** [datetime.strptime(s, '%Y-%m-%dT%H:%M')]

    CPython turns the format into the regular expression
    [(\d\d\d\d)-(1[0-2]|0[1-9]|[1-9])-(3[0-1]|[1-2]\d|0[1-9]|[1-9]| [1-9])
     T(2[0-3]|[0-1]\d|\d):([0-5]\d|\d)], compiled with IGNORECASE, takes the
    first match at the start of the text, rejects text left over after the
    match, and builds the datetime (ValueError on an impossible date).
    A group is embedded as the list of its matches in the order in which
    the backtracking matcher tries them.

    In a pattern over [str], [\d] is any decimal digit of Unicode, and
    [int] reads such digits; a class such as [[0-5]] is ASCII.  A text being
    its UTF-8 bytes, [\d] decodes one character and looks it up among the
    runs of ten decimal digits (Unicode 14.0, the database of CPython
    3.11).  Bytes that are not the UTF-8 of a character stand for no [str]
    and match no [\d]. *)

Definition is_digit (c : ascii) : bool :=
  (48 <=? nat_of_ascii c)%nat && (nat_of_ascii c <=? 57)%nat.

Definition digit_val (c : ascii) : Z := Z.of_nat (nat_of_ascii c) - 48.

Definition matches (A : Type) : Type := list (A * string).

Definition and_then {A B : Type} (m : matches A) (k : A -> string -> matches B)
  : matches B :=
  flat_map (fun '(a, r) => k a r) m.

Definition byte (c : ascii) : Z := Z.of_nat (nat_of_ascii c).

(** The payload of a continuation byte [10xxxxxx]. *)
Definition continuation (c : ascii) : option Z :=
  if ((128 <=? byte c) && (byte c <? 192))%Z then Some (byte c - 128)%Z else None.

(** A decoded code point is a character when its encoding is the shortest
    one ([lowest] is the least code point of that length) and it is not a
    surrogate or beyond U+10FFFF. *)
Definition scalar_value (lowest cp : Z) (rest : string) : option (Z * string) :=
  if ((lowest <=? cp) && (cp <=? 1114111)
      && negb ((55296 <=? cp) && (cp <=? 57343)))%Z
  then Some (cp, rest) else None.

(** The first character of a UTF-8 text, as its code point. *)
Definition utf8_char (s : string) : option (Z * string) :=
  match s with
  | EmptyString => None
  | String b0 r =>
      if (byte b0 <? 128)%Z then Some (byte b0, r)
      else if (byte b0 <? 192)%Z then None
      else if (byte b0 <? 224)%Z then
        match r with
        | String b1 r1 =>
            match continuation b1 with
            | Some x1 => scalar_value 128 ((byte b0 - 192) * 64 + x1)%Z r1
            | None => None
            end
        | _ => None
        end
      else if (byte b0 <? 240)%Z then
        match r with
        | String b1 (String b2 r2) =>
            match continuation b1, continuation b2 with
            | Some x1, Some x2 =>
                scalar_value 2048 (((byte b0 - 224) * 64 + x1) * 64 + x2)%Z r2
            | _, _ => None
            end
        | _ => None
        end
      else if (byte b0 <? 248)%Z then
        match r with
        | String b1 (String b2 (String b3 r3)) =>
            match continuation b1, continuation b2, continuation b3 with
            | Some x1, Some x2, Some x3 =>
                scalar_value 65536
                  ((((byte b0 - 240) * 64 + x1) * 64 + x2) * 64 + x3)%Z r3
            | _, _, _ => None
            end
        | _ => None
        end
      else None
  end.

(** The code points of the digit zero of each run of decimal digits. *)
Definition decimal_zeros : list Z :=
  [48; 1632; 1776; 1984; 2406; 2534; 2662; 2790; 2918; 3046; 3174; 3302;
   3430; 3558; 3664; 3792; 3872; 4160; 4240; 6112; 6160; 6470; 6608; 6784;
   6800; 6992; 7088; 7232; 7248; 42528; 43216; 43264; 43472; 43504; 43600;
   44016; 65296; 66720; 68912; 69734; 69872; 69942; 70096; 70384; 70736;
   70864; 71248; 71360; 71472; 71904; 72016; 72784; 73040; 73120; 92768;
   92864; 93008; 120782; 120792; 120802; 120812; 120822; 123200; 123632;
   125264; 130032]%Z.

Definition decimal_value (cp : Z) : option Z :=
  match find (fun z => (z <=? cp) && (cp <=? z + 9))%Z decimal_zeros with
  | Some z => Some (cp - z)%Z
  | None => None
  end.

(** [\d] *)
Definition any_digit (s : string) : matches Z :=
  match utf8_char s with
  | Some (cp, r) =>
      match decimal_value cp with
      | Some v => [(v, r)]
      | None => []
      end
  | None => []
  end.

(** [[lo-hi]] over ASCII digits *)
Definition digit_in (lo hi : Z) (s : string) : matches Z :=
  match s with
  | String a r =>
      if is_digit a && (lo <=? digit_val a)%Z && (digit_val a <=? hi)%Z
      then [(digit_val a, r)] else []
  | _ => []
  end.

(** Two digit positions in a row, read as a number by [int]. *)
Definition two_digits (first second : string -> matches Z) (s : string)
  : matches Z :=
  and_then (first s) (fun a r =>
  and_then (second r) (fun b r' => [((10 * a + b)%Z, r')])).

(** A literal character of the pattern, matched ignoring case. *)
Definition to_lower (c : ascii) : ascii :=
  let n := nat_of_ascii c in
  if (65 <=? n)%nat && (n <=? 90)%nat then ascii_of_nat (n + 32) else c.

Definition literal (c : ascii) (s : string) : matches unit :=
  match s with
  | String a r => if Ascii.eqb (to_lower a) (to_lower c) then [(tt, r)] else []
  | _ => []
  end.

Definition re_Y (s : string) : matches Z :=
  and_then (any_digit s) (fun a s =>
  and_then (any_digit s) (fun b s =>
  and_then (any_digit s) (fun c s =>
  and_then (any_digit s) (fun d s =>
    [((1000 * a + 100 * b + 10 * c + d)%Z, s)])))).

Definition re_m (s : string) : matches Z :=
  two_digits (digit_in 1 1) (digit_in 0 2) s
  ++ two_digits (digit_in 0 0) (digit_in 1 9) s
  ++ digit_in 1 9 s.

Definition re_d (s : string) : matches Z :=
  two_digits (digit_in 3 3) (digit_in 0 1) s
  ++ two_digits (digit_in 1 2) any_digit s
  ++ two_digits (digit_in 0 0) (digit_in 1 9) s
  ++ digit_in 1 9 s
  ++ match s with
     | String " " r => digit_in 1 9 r
     | _ => []
     end.

Definition re_H (s : string) : matches Z :=
  two_digits (digit_in 2 2) (digit_in 0 3) s
  ++ two_digits (digit_in 0 1) any_digit s
  ++ any_digit s.

Definition re_M (s : string) : matches Z :=
  two_digits (digit_in 0 5) any_digit s
  ++ any_digit s.

(** All the ways the pattern matches a prefix of [s], first choice first. *)
Definition format_matches (s : string) : matches (Z * Z * Z * Z * Z) :=
  and_then (re_Y s) (fun Y s =>
  and_then (literal "-" s) (fun _ s =>
  and_then (re_m s) (fun m s =>
  and_then (literal "-" s) (fun _ s =>
  and_then (re_d s) (fun d s =>
  and_then (literal "T" s) (fun _ s =>
  and_then (re_H s) (fun H s =>
  and_then (literal ":" s) (fun _ s =>
  and_then (re_M s) (fun M s => [((Y, m, d, H, M), s)]))))))))).

Definition strptime (s : string) : result datetime :=
  match format_matches s with
  | [] => Raise ValueError                       (* does not match format *)
  | ((Y, m, d, H, M), rest) :: _ =>
      match rest with
      | EmptyString =>
          if valid_date Y m d
          then Ok (mkDatetime Y m d H M 0 0)
          else Raise ValueError                  (* day or year out of range *)
      | String _ _ => Raise ValueError           (* unconverted data remains *)
      end
  end.

(* ------------------------------------------------------------------ *)
(** ** SQLite values

    [expiry_date] is declared [DATETIME], which gives the column NUMERIC
    affinity: a bound text that reads as a number literal is stored as a
    number, any other text is stored as it is. *)

(** A stored number, as [sqlite3] hands it to Python. *)
Inductive number : Type :=
| Integer (n : Z)              (* storage class INTEGER, an [int] *)
| Real (m e : Z)               (* storage class REAL, the [float] m * 2^e *)
| Infinity (negative : bool).  (* storage class REAL, [inf] or [-inf] *)

Definition is_zero (x : number) : bool :=
  match x with
  | Integer n => (n =? 0)%Z
  | Real m _ => (m =? 0)%Z
  | Infinity _ => false
  end.

Inductive sqlite_value : Type :=
| SqlNull
| SqlNumber (x : number)
| SqlText (s : string)
| SqlBlob (b : string).

Definition is_space (c : ascii) : bool :=
  let n := nat_of_ascii c in
  (n =? 32)%nat || ((9 <=? n)%nat && (n <=? 13)%nat).

Fixpoint skip_spaces (s : string) : string :=
  match s with
  | String c r => if is_space c then skip_spaces r else s
  | EmptyString => s
  end.

(** The leading digits of [s], most significant first, and what follows. *)
Fixpoint take_digits (s : string) : list Z * string :=
  match s with
  | String c r =>
      if is_digit c
      then let '(ds, r') := take_digits r in (digit_val c :: ds, r')
      else ([], s)
  | EmptyString => ([], s)
  end.

Definition digits_value (ds : list Z) : Z :=
  fold_left (fun acc d => 10 * acc + d)%Z ds 0%Z.

Definition take_sign (s : string) : Z * string :=
  match s with
  | String "-" r => ((-1)%Z, r)
  | String "+" r => (1%Z, r)
  | _ => (1%Z, s)
  end.

(** SQLite's number literal (sqlite3AtoF): blanks, sign, digits, optional
    fraction, optional exponent, blanks; at least one digit in the
    significand and, after [e], in the exponent.  The result is the literal
    as written, [m * 10^e]. *)
Definition number_literal (s : string) : option (Z * Z) :=
  let '(sign, s1) := take_sign (skip_spaces s) in
  let '(int_part, s2) := take_digits s1 in
  let '(frac_part, s3) :=
    match s2 with
    | String "." r => take_digits r
    | _ => ([], s2)
    end in
  let exponent : option (Z * string) :=
    match s3 with
    | String c r =>
        if Ascii.eqb (to_lower c) "e"
        then let '(esign, r1) := take_sign r in
             match take_digits r1 with
             | ([], _) => None
             | (ds, r2) => Some ((esign * digits_value ds)%Z, r2)
             end
        else Some (0%Z, s3)
    | EmptyString => Some (0%Z, s3)
    end in
  match int_part ++ frac_part, exponent with
  | _ :: _, Some (e, rest) =>
      match skip_spaces rest with
      | EmptyString =>
          Some ((sign * digits_value (int_part ++ frac_part))%Z,
                (e - Z.of_nat (List.length frac_part))%Z)
      | String _ _ => None
      end
  | _, _ => None
  end.

(** What a NUMERIC column stores for a bound Python [str].  Whether the
    text is stored as a number is a matter of its syntax.  The number stored
    is SQLite's conversion [atof] of the text: sqlite3AtoF, which rounds to
    binary64 (so that ['1e-999'] becomes zero and ['1e999'] infinity), and
    then an INTEGER when the value is a whole number of 64 bits.  How
    sqlite3AtoF rounds depends on the version of SQLite and on the long
    double of the platform, so the conversion is a parameter of the
    embedding: what is proved of the application holds for every
    conversion. *)
Definition numeric_affinity (atof : string -> number) (s : string)
  : sqlite_value :=
  match number_literal s with
  | Some _ => SqlNumber (atof s)
  | None => SqlText s
  end.

(** [v < t] for a text [t], three-valued: [None] is SQL's NULL.  Numbers
    sort before every text, blobs after; two texts compare bytewise. *)
Definition sql_lt_text (v : sqlite_value) (t : string) : option bool :=
  match v with
  | SqlNull => None
  | SqlNumber _ => Some true
  | SqlText s => Some (String.ltb s t)
  | SqlBlob _ => Some false
  end.

(** A WHERE clause keeps a row only when its condition is true. *)
Definition where_true (c : option bool) : bool :=
  match c with Some true => true | _ => false end.

(** Python's truth value of the object [sqlite3] returns for a value. *)
Definition truthy (v : sqlite_value) : bool :=
  match v with
  | SqlNull => false
  | SqlNumber x => negb (is_zero x)
  | SqlText s => negb (String.eqb s "")
  | SqlBlob b => negb (String.eqb b "")
  end.

(* ------------------------------------------------------------------ *)
(** ** The two tables *)

Record link : Type := mkLink {
  link_id : Z;
  original_url : string;
  short_code : string;
  expiry_date : sqlite_value;
  created_at : string
}.

Record click : Type := mkClick {
  click_id : Z;
  click_short_code : string;
  clicked_at : string;
  ip_address : option string;
  user_agent : string
}.

(** Rows are kept in rowid order.  [links_seq] and [clicks_seq] are the
    AUTOINCREMENT counters of [sqlite_sequence]. *)
Record database : Type := mkDatabase {
  links : list link;
  clicks : list click;
  links_seq : Z;
  clicks_seq : Z
}.

Definition next_rowid (seq : Z) (ids : list Z) : Z :=
  (fold_right Z.max seq ids + 1)%Z.

(** The UNIQUE constraint on [links.short_code] and the primary key. *)
Definition unique_codes (db : database) : Prop :=
  NoDup (map short_code (links db)).

Definition unique_ids (db : database) : Prop :=
  NoDup (map link_id (links db)).

(* ------------------------------------------------------------------ *)
(** ** A [sqlite3] connection used as a context manager *)

Record connection : Type := mkConnection {
  committed : database;
  working : database
}.

Definition connect (db : database) : connection :=
  {| committed := db; working := db |}.

Definition commit (c : connection) : connection :=
  {| committed := working c; working := working c |}.

Definition rollback (c : connection) : connection :=
  {| committed := committed c; working := committed c |}.

Definition execute (f : database -> database) (c : connection) : connection :=
  {| committed := committed c; working := f (working c) |}.

(** Leaving [with sqlite3.connect(...) as conn:]: commit when the body
    finished, roll back when it raised; the exception goes on to the caller.
    What remains is the committed database. *)
Definition leave_with {A : Type} (c : connection) (body : result A)
  : database * result A :=
  match body with
  | Ok a => (committed (commit c), Ok a)
  | Raise e => (committed (rollback c), Raise e)
  end.

(* ------------------------------------------------------------------ *)
(** ** Statements *)

(** INSERT INTO clicks (short_code, ip_address, user_agent) VALUES (?, ?, ?).
    The foreign key to [links] is declared but SQLite does not enforce it
    unless [PRAGMA foreign_keys] is switched on, which the application never
    does. *)
Definition insert_click (utc_now : datetime) (code : string)
  (ip : option string) (ua : string) (db : database) : database :=
  let id := next_rowid (clicks_seq db) (map click_id (clicks db)) in
  {| links := links db;
     clicks := clicks db ++ [mkClick id code (sqlite_datetime utc_now) ip ua];
     links_seq := links_seq db;
     clicks_seq := id |}.

(** SELECT original_url, expiry_date FROM links WHERE short_code = ? *)
Definition select_link (code : string) (db : database)
  : list (string * sqlite_value) :=
  map (fun l => (original_url l, expiry_date l))
      (filter (fun l => String.eqb (short_code l) code) (links db)).

Definition fetchone {A : Type} (rows : list A) : option A := hd_error rows.

(** INSERT INTO links (original_url, short_code, expiry_date) VALUES (?, ?, ?) *)
Definition insert_link (atof : string -> number) (utc_now : datetime)
  (url code expiry : string) (db : database) : result database :=
  if existsb (fun l => String.eqb (short_code l) code) (links db)
  then Raise IntegrityError
  else
    let id := next_rowid (links_seq db) (map link_id (links db)) in
    Ok {| links := links db ++ [mkLink id url code
                                       (numeric_affinity atof expiry)
                                       (sqlite_datetime utc_now)];
          clicks := clicks db;
          links_seq := id;
          clicks_seq := clicks_seq db |}.

(** DELETE FROM links WHERE expiry_date < datetime("now") *)
Definition delete_where_expired (utc_now : datetime) (db : database) : database :=
  {| links := filter (fun l => negb (where_true
                        (sql_lt_text (expiry_date l) (sqlite_datetime utc_now))))
                     (links db);
     clicks := clicks db;
     links_seq := links_seq db;
     clicks_seq := clicks_seq db |}.

(* ------------------------------------------------------------------ *)
(** ** The sweep *)

Definition delete_expired_links (utc_now : datetime) (db : database) : database :=
  let conn := connect db in
  let conn := execute (delete_where_expired utc_now) conn in
  let conn := commit conn in
  fst (leave_with conn (Ok tt)).

(* ------------------------------------------------------------------ *)
(** ** Responses and requests *)

Inductive response : Type :=
| RedirectTo (location : string)
| Page (template : string) (context : list (string * string)) (status : Z).

Record clock : Type := mkClock {
  utc : datetime;      (* SQLite's 'now' *)
  localtime : datetime (* Python's datetime.now() *)
}.

Record redirect_request : Type := mkRedirectRequest {
  req_short_code : string;
  remote_addr : option string;
  user_agent_string : string
}.

(** werkzeug's [redirect(location)] (werkzeug 3): the response carries
    [location] in its Location header, and setting a header to a value with
    a carriage return or a line feed in it raises ValueError. *)
Fixpoint has_newline (s : string) : bool :=
  match s with
  | String c r =>
      (nat_of_ascii c =? 13)%nat || (nat_of_ascii c =? 10)%nat || has_newline r
  | EmptyString => false
  end.

Definition redirect (location : string) : result response :=
  if has_newline location then Raise ValueError else Ok (RedirectTo location).

(** [expiry_date and datetime.now() > datetime.strptime(expiry_date, fmt)] *)
Definition expired (now : datetime) (expiry : sqlite_value) : result bool :=
  if truthy expiry then
    match expiry with
    | SqlText s => (t <- strptime s ;; Ok (datetime_gt now t))%result
    | _ => Raise TypeError
    end
  else Ok false.

Definition redirect_to_original (clk : clock) (rq : redirect_request)
  (db : database) : database * result response :=
  let conn := connect db in
  let conn := execute (insert_click (utc clk) (req_short_code rq)
                         (remote_addr rq) (user_agent_string rq)) conn in
  let result := fetchone (select_link (req_short_code rq) (working conn)) in
  let conn := commit conn in
  leave_with conn
    match result with
    | Some (url, expiry) =>
        (is_expired <- expired (localtime clk) expiry ;;
         if is_expired
         then Ok (Page "error.html" [("message", "This URL has expired")] 410)
         else redirect url)%result
    | None => Ok (Page "error.html" [("message", "URL not found")] 404)
    end.

(* ------------------------------------------------------------------ *)
(** ** Random choices

    A random computation is embedded as the list of its equally likely
    results: [random.choice(seq)] has one result per position of [seq].
    The probability of an event is the share of the results in which it
    holds. *)

Definition outcomes (A : Type) : Type := list A.

Definition random_choice {A : Type} (seq : list A) : outcomes A := seq.

Definition ascii_lowercase : string := "abcdefghijklmnopqrstuvwxyz".
Definition ascii_uppercase : string := "ABCDEFGHIJKLMNOPQRSTUVWXYZ".
Definition ascii_letters : string := (ascii_lowercase ++ ascii_uppercase)%string.
Definition digits : string := "0123456789".

Definition characters : list ascii :=
  list_ascii_of_string (ascii_letters ++ digits)%string.

(** [''.join(random.choice(chars) for _ in range(n))] *)
Fixpoint join_choices (n : nat) (chars : list ascii) : outcomes string :=
  match n with
  | O => [""]
  | S n' =>
      flat_map (fun c => map (String c) (join_choices n' chars))
               (random_choice chars)
  end.

Definition generate_short_code : outcomes string :=
  join_choices 6 characters.

(* ------------------------------------------------------------------ *)
(** ** Creating a link: [index] *)

Inductive http_method : Type := GET | POST.

Record index_request : Type := mkIndexRequest {
  method : http_method;
  form_url : option string;
  form_expiry_date : option string;
  host_url : string
}.

(** [request.form[key]] *)
Definition form_field (v : option string) : result string :=
  match v with
  | Some s => Ok s
  | None => Raise BadRequestKeyError
  end.

(** The POST branch once the form was read and the code was drawn. *)
Definition store_link (atof : string -> number) (clk : clock)
  (host url expiry code : string) (db : database)
  : database * result response :=
  let conn := connect db in
  let '(db', stored) :=
    match insert_link atof (utc clk) url code expiry (working conn) with
    | Raise e => leave_with conn (Raise e)
    | Ok w =>
        let conn := commit {| committed := committed conn; working := w |} in
        leave_with conn (Ok tt)
    end in
  (db',
   (_ <- stored ;;
    Ok (Page "index.html"
          [("short_url", (host ++ code)%string); ("original_url", url)] 200))%result).

Definition index (atof : string -> number) (clk : clock) (rq : index_request)
  (db : database) : outcomes (database * result response) :=
  match method rq with
  | POST =>
      match form_field (form_url rq) with
      | Raise e => [(db, Raise e)]
      | Ok original_url =>
          match form_field (form_expiry_date rq) with
          | Raise e => [(db, Raise e)]
          | Ok expiry =>
              map (fun short_code =>
                     store_link atof clk (host_url rq) original_url expiry
                                short_code db)
                  generate_short_code
          end
      end
  | GET => [(db, Ok (Page "index.html" [] 200))]
  end.

(* ------------------------------------------------------------------ *)
(** ** Listing links with click counts: the query of [all_links]

    SELECT l.*, COUNT(c.id) AS click_count
    FROM links l LEFT JOIN clicks c ON l.short_code = c.short_code
    GROUP BY l.id ORDER BY l.created_at DESC *)

Definition left_join (ls : list link) (cs : list click)
  : list (link * option click) :=
  flat_map (fun l =>
              match filter (fun c => String.eqb (short_code l) (click_short_code c)) cs with
              | [] => [(l, None)]
              | c :: m => map (fun c => (l, Some c)) (c :: m)
              end) ls.

(** GROUP BY l.id: a joined row goes to the group of its link's id.  The
    columns [l.*] of a group are those of its first row; [id] being the
    primary key, all rows of a group carry the same link. *)
Fixpoint add_to_group (r : link * option click)
  (groups : list (link * list (option click)))
  : list (link * list (option click)) :=
  match groups with
  | [] => [(fst r, [snd r])]
  | (l, cs) :: rest =>
      if (link_id l =? link_id (fst r))%Z
      then (l, cs ++ [snd r]) :: rest
      else (l, cs) :: add_to_group r rest
  end.

Definition group_by_id (rows : list (link * option click))
  : list (link * list (option click)) :=
  fold_left (fun groups r => add_to_group r groups) rows [].

(** COUNT(c.id): the rows of the group whose [c.id] is not NULL. *)
Definition count_non_null (cs : list (option click)) : Z :=
  Z.of_nat (List.length (filter (fun c => match c with Some _ => true | None => false end) cs)).

(** ORDER BY l.created_at DESC, on the text of [created_at].  SQLite's
    sorter is stable: rows with equal [created_at] stay in the order in
    which the query produced them, here the order of their rowids.  A row
    is put before the rows that came after it, past those with a greater
    key. *)
Fixpoint insert_desc (r : link * Z) (sorted : list (link * Z)) : list (link * Z) :=
  match sorted with
  | [] => [r]
  | x :: rest =>
      if String.ltb (created_at (fst r)) (created_at (fst x))
      then x :: insert_desc r rest
      else r :: x :: rest
  end.

Definition order_by_created_at_desc (rows : list (link * Z)) : list (link * Z) :=
  fold_right insert_desc [] rows.

Definition all_links (db : database) : list (link * Z) :=
  let conn := connect db in
  let grouped := group_by_id (left_join (links (working conn)) (clicks (working conn))) in
  order_by_created_at_desc (map (fun '(l, cs) => (l, count_non_null cs)) grouped).

(** The listing as the specification words it. *)
Definition click_count (db : database) (l : link) : Z :=
  Z.of_nat (List.length
    (filter (fun c => String.eqb (click_short_code c) (short_code l)) (clicks db))).

Definition list_all_with_click_counts_spec (db : database) : list (link * Z) :=
  map (fun l => (l, click_count db l)) (links db).

(* ------------------------------------------------------------------ *)
(** ** The process: module body, scheduler and main block

    The module body runs top to bottom; when the file is run as a script the
    main block follows.  Time is counted in hours, the unit in which the
    job's interval is given.  Besides the main thread taking its next
    statement, the only input is one more hour having gone by, at which the
    scheduler's thread, if the scheduler is running, runs the jobs whose
    interval has elapsed. *)

(** A job with [trigger='interval', hours=...].  The trigger fires first
    one interval after it was made and from then on once per interval;
    [due_in] is the number of hours until it fires next. *)
Record job : Type := mkJob {
  interval_hours : Z;
  due_in : Z
}.

Definition is_due (j : job) : bool := (due_in j <=? 1)%Z.

(** One hour goes by for a trigger. *)
Definition tick (j : job) : job :=
  {| interval_hours := interval_hours j;
     due_in := if is_due j then interval_hours j else (due_in j - 1)%Z |}.

Record scheduler_state : Type := mkScheduler {
  jobs : list job;
  running : bool
}.

Definition BackgroundScheduler : scheduler_state :=
  {| jobs := []; running := false |}.

Definition add_job (hours : Z) (s : scheduler_state) : scheduler_state :=
  {| jobs := jobs s ++ [mkJob hours hours]; running := running s |}.

Definition start (s : scheduler_state) : scheduler_state :=
  {| jobs := jobs s; running := true |}.

Definition shutdown (s : scheduler_state) : scheduler_state :=
  {| jobs := jobs s; running := false |}.

Inductive statement : Type :=
| NewScheduler            (* scheduler = BackgroundScheduler() *)
| AddSweepJob (hours : Z) (* scheduler.add_job(func=delete_expired_links, ...) *)
| StartScheduler          (* scheduler.start() *)
| InitDb                  (* init_db() *)
| AppRun                  (* app.run(debug=True), until it returns or raises *)
| ShutdownScheduler.      (* finally: scheduler.shutdown() *)

Definition module_body : list statement :=
  [NewScheduler; AddSweepJob 1; StartScheduler].

Definition main_block : list statement :=
  [InitDb; AppRun; ShutdownScheduler].

Definition program (as_main : bool) : list statement :=
  module_body ++ (if as_main then main_block else []).

Inductive event : Type :=
| SchedulerStarted
| StoreInitialized
| Swept (utc_now : datetime) (table_exists : bool)
| SchedulerStopped.

Definition empty_database : database :=
  {| links := []; clicks := []; links_seq := 0; clicks_seq := 0 |}.

(** CREATE TABLE IF NOT EXISTS for both tables; [None] is a database file
    that has no tables yet. *)
Definition init_db (store : option database) : option database :=
  match store with
  | Some db => Some db
  | None => Some empty_database
  end.

Record process : Type := mkProcess {
  todo : list statement;
  sched : scheduler_state;
  store : option database;
  log : list event
}.

Definition boot (as_main : bool) (store0 : option database) : process :=
  {| todo := program as_main; sched := BackgroundScheduler;
     store := store0; log := [] |}.

Inductive input : Type :=
| MainStep                         (* the main thread runs its next statement *)
| HourElapsed (utc_now : datetime).  (* an hour went by; the clock reads [utc_now] *)

Definition run_statement (s : statement) (p : process) : process :=
  match s with
  | NewScheduler =>
      {| todo := todo p; sched := BackgroundScheduler; store := store p; log := log p |}
  | AddSweepJob h =>
      {| todo := todo p; sched := add_job h (sched p); store := store p; log := log p |}
  | StartScheduler =>
      {| todo := todo p; sched := start (sched p); store := store p;
         log := log p ++ [SchedulerStarted] |}
  | InitDb =>
      {| todo := todo p; sched := sched p; store := init_db (store p);
         log := log p ++ [StoreInitialized] |}
  | AppRun => p
  | ShutdownScheduler =>
      {| todo := todo p; sched := shutdown (sched p); store := store p;
         log := log p ++ [SchedulerStopped] |}
  end.

(** One run of a job, whose function is [delete_expired_links]: the sweep,
    or an error that APScheduler logs when the table does not exist. *)
Definition run_job (utc_now : datetime) (p : process) (_ : job) : process :=
  {| todo := todo p; sched := sched p;
     store := option_map (delete_expired_links utc_now) (store p);
     log := log p ++ [Swept utc_now (match store p with Some _ => true | None => false end)] |}.

Definition step (p : process) (i : input) : process :=
  match i with
  | MainStep =>
      match todo p with
      | [] => p
      | s :: rest =>
          run_statement s {| todo := rest; sched := sched p;
                             store := store p; log := log p |}
      end
  | HourElapsed utc_now =>
      let p' := {| todo := todo p;
                   sched := {| jobs := map tick (jobs (sched p));
                               running := running (sched p) |};
                   store := store p; log := log p |} in
      if running (sched p)
      then fold_left (run_job utc_now) (filter is_due (jobs (sched p))) p'
      else p'
  end.

Definition run (p : process) (inputs : list input) : process :=
  fold_left step inputs p.

(** The requirement on the order of start and initialisation: whenever the
    scheduler is started, the store was initialised before. *)
Fixpoint started_after_initialized (seen_init : bool) (l : list event) : bool :=
  match l with
  | [] => true
  | SchedulerStarted :: rest => seen_init && started_after_initialized seen_init rest
  | StoreInitialized :: rest => started_after_initialized true rest
  | _ :: rest => started_after_initialized seen_init rest
  end.

Fixpoint sweeps (l : list event) : nat :=
  match l with
  | [] => 0
  | Swept _ _ :: rest => S (sweeps rest)
  | _ :: rest => sweeps rest
  end.

(** The hours that go by among [inputs] between the third statement of
    the script, [scheduler.start()], and the sixth, [scheduler.shutdown()];
    [k] is the number of statements the main thread has run so far. *)
Fixpoint hours_between_start_and_shutdown (k : nat) (inputs : list input) : nat :=
  match inputs with
  | [] => 0
  | MainStep :: rest => hours_between_start_and_shutdown (S k) rest
  | HourElapsed _ :: rest =>
      ((if ((3 <=? k) && (k <? 6))%nat then 1 else 0)
       + hours_between_start_and_shutdown k rest)%nat
  end.

(* ------------------------------------------------------------------ *)
(** ** Notions used to state the properties *)

(** The timestamp a stored expiry value stands for, if any: the reading
    that the redirect handler gives to a text. *)
Definition expiry_time (v : sqlite_value) : option datetime :=
  match v with
  | SqlText s => match strptime s with Ok t => Some t | Raise _ => None end
  | _ => None
  end.

(** Lowercase letter, uppercase letter or digit. *)
Definition is_alphanumeric (c : ascii) : bool :=
  let n := nat_of_ascii c in
  ((97 <=? n) && (n <=? 122) || (65 <=? n) && (n <=? 90)
   || (48 <=? n) && (n <=? 57))%nat.

(** The character at position [i] of a string. *)
Definition char_at (i : nat) (s : string) : option ascii := String.get i s.

(** Rows in descending order of [created_at]. *)
Definition created_at_desc (a b : link * Z) : Prop :=
  String.leb (created_at (fst b)) (created_at (fst a)) = true.

(* ------------------------------------------------------------------ *)
(** ** Sample data *)

Module Sample.

Definition noon : datetime := mkDatetime 2024 1 1 12 0 0 0.

Definition clk : clock := {| utc := noon; localtime := noon |}.

(** Created with the expiry field left blank. *)
Definition blank : link :=
  mkLink 1 "https://example.com" "Ab3dE9" (SqlText "") "2024-01-01 09:00:00".

(** Expired at ten o'clock of the same day. *)
Definition morning : link :=
  mkLink 2 "https://example.org" "x7Yz01" (SqlText "2024-01-01T10:00")
         "2024-01-01 09:30:00".

(** Expires the next day. *)
Definition tomorrow : link :=
  mkLink 3 "https://example.net" "Qq12Zz" (SqlText "2024-01-02T10:00")
         "2024-01-01 09:45:00".

Definition null_expiry : link :=
  mkLink 4 "https://example.edu" "n0Expy" SqlNull "2024-01-01 08:00:00".

Definition db : database :=
  {| links := [blank; morning; tomorrow; null_expiry];
     clicks := [mkClick 1 "x7Yz01" "2024-01-01 09:40:00" (Some "127.0.0.1") "curl";
                mkClick 2 "nosuch" "2024-01-01 09:41:00" None "curl";
                mkClick 3 "x7Yz01" "2024-01-01 09:42:00" (Some "127.0.0.1") "curl"];
     links_seq := 4; clicks_seq := 3 |}.

Definition get (code : string) : redirect_request :=
  mkRedirectRequest code (Some "127.0.0.1") "curl".

(** A link whose URL has a line break in it. *)
Definition line_break : link :=
  mkLink 1
    ("https://example.com/" ++ String "013" (String "010" "Set-Cookie: a=b"))
    "Cr1fLf" SqlNull "2024-01-01 09:00:00".

Definition line_break_db : database :=
  {| links := [line_break]; clicks := []; links_seq := 1; clicks_seq := 0 |}.

(** A link whose expiry carries seconds. *)
Definition with_seconds : link :=
  mkLink 1 "https://example.com" "Sec0nd" (SqlText "2024-01-01T10:00:30")
         "2024-01-01 09:00:00".

Definition with_seconds_db : database :=
  {| links := [with_seconds]; clicks := []; links_seq := 1; clicks_seq := 0 |}.

(** A link whose expiry was submitted as [5], stored as a number. *)
Definition five : link :=
  mkLink 1 "https://example.com" "F1ve55" (SqlNumber (Integer 5))
         "2024-01-01 09:00:00".

Definition five_db : database :=
  {| links := [five]; clicks := []; links_seq := 1; clicks_seq := 0 |}.

(** Created with the expiry field left blank, with a line break in the URL. *)
Definition blank_line_break : link :=
  mkLink 1 ("https://example.com/" ++ String "010" "")
         "B1ankL" (SqlText "") "2024-01-01 09:00:00".

Definition blank_line_break_db : database :=
  {| links := [blank_line_break]; clicks := []; links_seq := 1; clicks_seq := 0 |}.

(** SQLite's conversion of a number literal, on the literals of whole
    numbers below 2^63 written without fraction and exponent; the samples
    bind no other number. *)
Definition atof (s : string) : number :=
  match number_literal s with
  | Some (m, _) => Integer m
  | None => Integer 0
  end.

End Sample.

(** Does [s] have the character [c] at position [i]? *)
Definition has_char_at (i : nat) (c : ascii) (s : string) : bool :=
  match char_at i s with
  | Some x => Ascii.eqb x c
  | None => false
  end.

(** The click side of the joined rows of one link: its matching clicks,
    or a single NULL when it has none. *)
Definition joined_clicks (cs : list click) (l : link) : list (option click) :=
  match filter (fun c => String.eqb (short_code l) (click_short_code c)) cs with
  | [] => [None]
  | c :: m => map Some (c :: m)
  end.

(** The events of the main thread in a log. *)
Definition is_main_event (e : event) : bool :=
  match e with Swept _ _ => false | _ => true end.

Definition main_events (l : list event) : list event := filter is_main_event l.

(** The number of statements the main thread was given time for. *)
Definition main_steps (inputs : list input) : nat :=
  List.length (filter (fun i => match i with MainStep => true | HourElapsed _ => false end)
                      inputs).

(** The script after [k] statements of the main thread and no timer. *)
Definition after_main_steps (k : nat) : process :=
  run (boot true None) (repeat MainStep k).

(** [p] stands where the main thread stands after [k] of its statements. *)
Definition at_statement (k : nat) (p : process) : Prop :=
  todo p = todo (after_main_steps k)
  /\ sched p = sched (after_main_steps k)
  /\ main_events (log p) = log (after_main_steps k).

Definition table_exists (s : option database) : bool :=
  match s with Some _ => true | None => false end.

(** The calendar date of a timestamp, and the timestamp to the second. *)
Definition date_key (t : datetime) : list Z := [year t; month t; day t].

Definition second_key (t : datetime) : list Z :=
  [year t; month t; day t; hour t; minute t; second t].

(* ------------------------------------------------------------------ *)
(** ** The template filter [datetimeformat]

    [strftime] is the library's formatter of a datetime under a format
    text; the filter is embedded over any such formatter. *)

Definition default_format : string := "%Y-%m-%d %H:%M".

Definition datetimeformat (strftime : datetime -> string -> string)
  (value : sqlite_value) (format : string) : result string :=
  if negb (truthy value) then Ok "Never"
  else
    match value with
    | SqlText s => (t <- strptime s ;; Ok (strftime t format))%result
    | _ => Raise TypeError
    end.

(* ------------------------------------------------------------------ *)
(** ** Sorting in descending order

    ORDER BY ... DESC as a stable insertion sort under a strict comparison
    [lt r x] of the sort keys of [r] and [x]: rows with equal keys stay in
    the order in which the query produced them, as they do with SQLite's
    sorter. *)

Fixpoint insert_desc_by {A : Type} (lt : A -> A -> bool) (r : A)
  (sorted : list A) : list A :=
  match sorted with
  | [] => [r]
  | x :: rest =>
      if lt r x then x :: insert_desc_by lt r rest else r :: x :: rest
  end.

Definition sort_desc_by {A : Type} (lt : A -> A -> bool) (rows : list A) : list A :=
  fold_right (insert_desc_by lt) [] rows.

(* ------------------------------------------------------------------ *)
(** ** The statistics of the context processor: [get_system_stats] *)

(** [v > t] for a text [t], three-valued. *)
Definition sql_gt_text (v : sqlite_value) (t : string) : option bool :=
  match v with
  | SqlNull => None
  | SqlNumber _ => Some false
  | SqlText s => Some (String.ltb t s)
  | SqlBlob _ => Some true
  end.

(** SUM(...): NULL over no rows. *)
Definition sql_sum (xs : list Z) : option Z :=
  match xs with
  | [] => None
  | _ :: _ => Some (fold_right Z.add 0%Z xs)
  end.

(** CASE WHEN expiry_date > datetime('now') THEN 1 ELSE 0 END *)
Definition active_case (utc_now : datetime) (l : link) : Z :=
  if where_true (sql_gt_text (expiry_date l) (sqlite_datetime utc_now))
  then 1%Z else 0%Z.

(** GROUP BY l.short_code *)
Fixpoint add_to_code_group (r : link * option click)
  (groups : list (link * list (option click)))
  : list (link * list (option click)) :=
  match groups with
  | [] => [(fst r, [snd r])]
  | (l, cs) :: rest =>
      if String.eqb (short_code l) (short_code (fst r))
      then (l, cs ++ [snd r]) :: rest
      else (l, cs) :: add_to_code_group r rest
  end.

Definition group_by_short_code (rows : list (link * option click))
  : list (link * list (option click)) :=
  fold_left (fun groups r => add_to_code_group r groups) rows [].

(** ORDER BY clicks DESC *)
Definition order_by_clicks_desc (rows : list (string * Z)) : list (string * Z) :=
  sort_desc_by (fun r x => (snd r <? snd x)%Z) rows.

(** The rows of [links] as the query of the popular links reads them:
    grouping by [short_code], SQLite scans the index that the UNIQUE
    constraint keeps on that column, in ascending order of the codes. *)
Fixpoint insert_by_code (l : link) (sorted : list link) : list link :=
  match sorted with
  | [] => [l]
  | x :: rest =>
      if String.ltb (short_code x) (short_code l)
      then x :: insert_by_code l rest
      else l :: x :: rest
  end.

Definition scan_short_code_index (ls : list link) : list link :=
  fold_right insert_by_code [] ls.

Record system_stats : Type := mkStats {
  total_links : Z;
  active_links : option Z;      (* None is Python's None, SQL's NULL *)
  total_clicks : Z;
  popular_links : list (string * Z)
}.

Definition get_system_stats (utc_now : datetime) (db : database) : system_stats :=
  let conn := connect db in
  let w := working conn in
  {| total_links := Z.of_nat (List.length (links w));
     active_links := sql_sum (map (active_case utc_now) (links w));
     total_clicks := Z.of_nat (List.length (clicks w));
     popular_links :=
       firstn 5
         (order_by_clicks_desc
            (map (fun '(l, cs) => (short_code l, count_non_null cs))
                 (group_by_short_code
                    (left_join (scan_short_code_index (links w)) (clicks w))))) |}.

(* ------------------------------------------------------------------ *)
(** ** One link and its clicks: [click_details] *)

(** ORDER BY clicked_at DESC *)
Definition order_by_clicked_at_desc (rows : list click) : list click :=
  sort_desc_by (fun c x => String.ltb (clicked_at c) (clicked_at x)) rows.

(** What the handler hands to the template. *)
Record click_details_context : Type := mkDetails {
  details_link : option link;
  details_clicks : list click;
  details_total_clicks : Z
}.

Definition click_details (code : string) (db : database) : click_details_context :=
  let conn := connect db in
  let w := working conn in
  let link := fetchone (filter (fun l => String.eqb (short_code l) code) (links w)) in
  let clicks :=
    order_by_clicked_at_desc
      (filter (fun c => String.eqb (click_short_code c) code) (clicks w)) in
  {| details_link := link;
     details_clicks := clicks;
     details_total_clicks := Z.of_nat (List.length clicks) |}.

(* ------------------------------------------------------------------ *)
(** ** More notions used to state the properties *)

(** A series of visits, each at its clock reading. *)
Definition visits (rs : list (clock * redirect_request)) (db : database) : database :=
  fold_left (fun d r => fst (redirect_to_original (fst r) (snd r) d)) rs db.

(** No row carries an id above the AUTOINCREMENT counter of its table. *)
Definition ids_within_seq (db : database) : Prop :=
  Forall (fun l => (link_id l <= links_seq db)%Z) (links db).

(** The clicks recorded for a code. *)
Definition clicks_for (code : string) (db : database) : list click :=
  filter (fun c => String.eqb (click_short_code c) code) (clicks db).

(** The clicks whose code no link carries. *)
Definition dangling_clicks (db : database) : list click :=
  filter (fun c => negb (existsb (fun l => String.eqb (short_code l) (click_short_code c))
                           (links db)))
         (clicks db).

Definition is_null (v : sqlite_value) : bool :=
  match v with SqlNull => true | _ => false end.

(** The timestamp that a form value of [e] is read back as. *)
Definition to_the_minute (e : datetime) : datetime :=
  mkDatetime (year e) (month e) (day e) (hour e) (minute e) 0 0.

Definition expired_page : response :=
  Page "error.html" [("message", "This URL has expired")] 410.

Definition not_found_page : response :=
  Page "error.html" [("message", "URL not found")] 404.

(** Is [code] a string of six characters of the generator's alphabet? *)
Definition is_generated (code : string) : bool :=
  (String.length code =? 6)%nat
  && forallb (fun c => existsb (Ascii.eqb c) characters) (list_ascii_of_string code).

Definition raises (e : exn) {A : Type} (r : result A) : bool :=
  match r, e with
  | Raise ValueError, ValueError
  | Raise TypeError, TypeError
  | Raise IntegrityError, IntegrityError
  | Raise BadRequestKeyError, BadRequestKeyError => true
  | _, _ => false
  end.

(** Does one of the texts [xs] equal [y]? *)
Definition mem (xs : list string) (y : string) : bool :=
  existsb (String.eqb y) xs.

(** Rows in descending order of their click counts. *)
Definition clicks_desc (a b : string * Z) : Prop := (snd b <= snd a)%Z.

(** Clicks in descending order of [clicked_at]. *)
Definition clicked_at_desc (a b : click) : Prop :=
  String.leb (clicked_at b) (clicked_at a) = true.

Definition sum_counts {A : Type} (rows : list (A * Z)) : Z :=
  fold_right Z.add 0%Z (map snd rows).

(** The module after [k] statements of its body, when it is imported
    rather than run as a script. *)
Definition after_module_steps (k : nat) : process :=
  run (boot false None) (repeat MainStep k).

Definition at_module_statement (k : nat) (p : process) : Prop :=
  todo p = todo (after_module_steps k)
  /\ sched p = sched (after_module_steps k)
  /\ main_events (log p) = log (after_module_steps k).

(** The number of hours that go by among the inputs, each of which is an
    expiry of an interval of one hour. *)
Definition timer_inputs (inputs : list input) : nat :=
  List.length (filter (fun i => match i with HourElapsed _ => true | MainStep => false end)
                      inputs).

(* ================================================================== *)
(** * Properties *)

(* ------------------------------------------------------------------ *)
(** ** Parsing and printing timestamps: examples *)

Example strptime_form_value :
  strptime "2024-01-01T10:00" = Ok (mkDatetime 2024 1 1 10 0 0 0).
Proof. reflexivity. Qed.

Example strptime_unpadded :
  strptime "2024-1-5t3:7" = Ok (mkDatetime 2024 1 5 3 7 0 0).
Proof. reflexivity. Qed.

(** [\d] takes any decimal digit: U+0665, ARABIC-INDIC DIGIT FIVE, in the
    minutes; a class of the pattern takes ASCII digits only, so not in the
    month. *)
Example strptime_arabic_indic_minute :
  strptime ("2024-01-01T10:0" ++ String "217" (String "165" ""))
  = Ok (mkDatetime 2024 1 1 10 5 0 0).
Proof. reflexivity. Qed.

Example strptime_arabic_indic_month :
  strptime ("2024-0" ++ String "217" (String "165" "-01T10:00"))
  = Raise ValueError.
Proof. reflexivity. Qed.

Example strptime_with_seconds : strptime "2024-01-01T10:00:30" = Raise ValueError.
Proof. reflexivity. Qed.

Example strptime_sqlite_text : strptime "2024-01-01 10:00:00" = Raise ValueError.
Proof. reflexivity. Qed.

Example strptime_feb_30 : strptime "2023-02-30T10:00" = Raise ValueError.
Proof. reflexivity. Qed.

Example strptime_empty : strptime "" = Raise ValueError.
Proof. reflexivity. Qed.

Example sqlite_datetime_example :
  sqlite_datetime (mkDatetime 2024 1 1 12 0 0 0) = "2024-01-01 12:00:00"%string.
Proof. reflexivity. Qed.

(* ------------------------------------------------------------------ *)
(** ** The form's text of a timestamp parses back to it *)

Lemma nat_of_digit_char (n : Z) :
  nat_of_ascii (digit_char n) = (48 + Z.to_nat (n mod 10))%nat.
Proof.
  unfold digit_char. apply nat_ascii_embedding.
  pose proof (Z.mod_pos_bound n 10 eq_refl). lia.
Qed.

Lemma is_digit_digit_char (n : Z) : is_digit (digit_char n) = true.
Proof.
  unfold is_digit. rewrite nat_of_digit_char.
  pose proof (Z.mod_pos_bound n 10 eq_refl).
  apply andb_true_iff. split; apply Nat.leb_le; lia.
Qed.

Lemma digit_val_digit_char (n : Z) : digit_val (digit_char n) = (n mod 10)%Z.
Proof.
  unfold digit_val. rewrite nat_of_digit_char.
  pose proof (Z.mod_pos_bound n 10 eq_refl). lia.
Qed.

Lemma any_digit_digit_char (n : Z) (rest : string) :
  any_digit (String (digit_char n) rest) = [((n mod 10)%Z, rest)].
Proof.
  unfold digit_char. pose proof (Z.mod_pos_bound n 10 eq_refl) as H.
  set (k := (n mod 10)%Z) in *.
  assert (Hk : (k = 0 \/ k = 1 \/ k = 2 \/ k = 3 \/ k = 4 \/ k = 5 \/ k = 6
                \/ k = 7 \/ k = 8 \/ k = 9)%Z) by lia.
  clearbody k. clear H.
  repeat (destruct Hk as [->|Hk]; [reflexivity|]). now subst k.
Qed.

Lemma re_Y_pad4 (y : Z) (rest : string) :
  (0 <= y <= 9999)%Z -> re_Y (pad4 y ++ rest) = [(y, rest)].
Proof.
  intros Hy. unfold pad4, pad2. cbn [append]. unfold re_Y.
  do 4 (rewrite any_digit_digit_char; cbn [and_then flat_map app]).
  do 2 f_equal. Z.to_euclidean_division_equations. lia.
Qed.

(** A group that is given the two digits of a number in its range matches
    them first. *)
Ltac first_match_by_cases n lo hi :=
  let rec go k :=
    tryif (let b := eval vm_compute in (Z.ltb hi k) in
           match b with true => idtac | false => fail end)
    then lia
    else (destruct (Z.eq_dec n k) as [->|?];
          [eexists; reflexivity
          | let k' := eval vm_compute in (Z.succ k) in go k'])
  in go lo.

Lemma re_m_pad2 (m : Z) (rest : string) :
  (1 <= m <= 12)%Z -> exists others, re_m (pad2 m ++ rest) = (m, rest) :: others.
Proof. intros H. first_match_by_cases m 1%Z 12%Z. Qed.

Lemma re_d_pad2 (d : Z) (rest : string) :
  (1 <= d <= 31)%Z -> exists others, re_d (pad2 d ++ rest) = (d, rest) :: others.
Proof. intros H. first_match_by_cases d 1%Z 31%Z. Qed.

Lemma re_H_pad2 (h : Z) (rest : string) :
  (0 <= h <= 23)%Z -> exists others, re_H (pad2 h ++ rest) = (h, rest) :: others.
Proof. intros H. first_match_by_cases h 0%Z 23%Z. Qed.

Lemma re_M_pad2 (m : Z) (rest : string) :
  (0 <= m <= 59)%Z -> exists others, re_M (pad2 m ++ rest) = (m, rest) :: others.
Proof. intros H. first_match_by_cases m 0%Z 59%Z. Qed.

Lemma append_assoc (a b c : string) : ((a ++ b) ++ c = a ++ (b ++ c))%string.
Proof. induction a as [|x a IH]; cbn; [reflexivity | now rewrite IH]. Qed.

Lemma append_empty_r (a : string) : (a ++ "")%string = a.
Proof. induction a as [|x a IH]; cbn; [reflexivity | now rewrite IH]. Qed.

Lemma literal_same (c : ascii) (r : string) : literal c (String c r) = [(tt, r)].
Proof. unfold literal. now rewrite Ascii.eqb_refl. Qed.

Lemma days_in_month_le_31 (y m : Z) : (days_in_month y m <= 31)%Z.
Proof.
  unfold days_in_month.
  repeat match goal with |- context [if ?b then _ else _] => destruct b end; lia.
Qed.

(** [strptime] reads the text of a [datetime-local] field back: the date,
    the hour and the minute, with seconds and microseconds zero. *)
Lemma strptime_datetime_local (t : datetime) :
  valid_datetime t = true ->
  strptime (datetime_local t)
  = Ok (mkDatetime (year t) (month t) (day t) (hour t) (minute t) 0 0).
Proof.
  unfold valid_datetime, valid_date. rewrite !andb_true_iff, !Z.leb_le.
  intros Hv. pose proof (days_in_month_le_31 (year t) (month t)) as Hdim.
  assert (Hvd : valid_date (year t) (month t) (day t) = true).
  { unfold valid_date. rewrite !andb_true_iff, !Z.leb_le. tauto. }
  destruct (re_M_pad2 (minute t) "") as (oM & HM); [lia|].
  rewrite append_empty_r in HM.
  destruct (re_H_pad2 (hour t) (String ":" (pad2 (minute t)))) as (oh & Hh); [lia|].
  destruct (re_d_pad2 (day t)
              (String "T" (pad2 (hour t) ++ String ":" (pad2 (minute t)))))
    as (od & Hd); [lia|].
  destruct (re_m_pad2 (month t)
              (String "-" (pad2 (day t) ++ String "T"
                 (pad2 (hour t) ++ String ":" (pad2 (minute t))))))
    as (om & Hm); [lia|].
  unfold strptime, format_matches, datetime_local, date_text.
  rewrite !append_assoc. cbn [append].
  rewrite re_Y_pad4 by lia. cbn [and_then flat_map app].
  rewrite literal_same. cbn [and_then flat_map app].
  rewrite Hm. cbn [and_then flat_map app].
  rewrite literal_same. cbn [and_then flat_map app].
  rewrite Hd. cbn [and_then flat_map app].
  rewrite literal_same. cbn [and_then flat_map app].
  rewrite Hh. cbn [and_then flat_map app].
  rewrite literal_same. cbn [and_then flat_map app].
  rewrite HM. cbn [and_then flat_map app].
  now rewrite Hvd.
Qed.

(* ------------------------------------------------------------------ *)
(** ** Bytewise order of timestamp texts is the order of the timestamps *)

Lemma N_of_digit_char (n : Z) :
  Z.of_N (N_of_ascii (digit_char n)) = (48 + n mod 10)%Z.
Proof.
  pose proof (nat_of_digit_char n) as H. unfold nat_of_ascii in H.
  pose proof (Z.mod_pos_bound n 10 eq_refl). lia.
Qed.

Lemma compare_digit_char (x y : Z) :
  Ascii.compare (digit_char x) (digit_char y) = (x mod 10 ?= y mod 10)%Z.
Proof.
  unfold Ascii.compare. rewrite <- N2Z.inj_compare, !N_of_digit_char.
  apply Z.add_compare_mono_l.
Qed.

Lemma compare_append (x1 x2 s1 s2 : string) :
  String.length x1 = String.length x2 ->
  String.compare (x1 ++ s1) (x2 ++ s2)
  = match String.compare x1 x2 with
    | Eq => String.compare s1 s2
    | c => c
    end.
Proof.
  revert x2. induction x1 as [|a x1 IH]; intros [|b x2]; simpl;
    try discriminate; intros Hlen; [reflexivity|].
  destruct (Ascii.compare a b); try reflexivity.
  apply IH. now injection Hlen.
Qed.

Ltac compare_by_digits :=
  repeat match goal with
         | |- context [match (?x ?= ?y)%Z with _ => _ end] =>
             destruct (Z.compare_spec x y)
         end;
  symmetry;
  first [ apply Z.compare_eq_iff; Z.to_euclidean_division_equations; lia
        | apply Z.compare_lt_iff; Z.to_euclidean_division_equations; lia
        | apply Z.compare_gt_iff; Z.to_euclidean_division_equations; lia ].

Lemma compare_pad2 (a b : Z) :
  (0 <= a <= 99)%Z -> (0 <= b <= 99)%Z ->
  String.compare (pad2 a) (pad2 b) = (a ?= b)%Z.
Proof.
  intros Ha Hb. unfold pad2. cbn [String.compare].
  rewrite !compare_digit_char. compare_by_digits.
Qed.

Lemma compare_pad4 (a b : Z) :
  (0 <= a <= 9999)%Z -> (0 <= b <= 9999)%Z ->
  String.compare (pad4 a) (pad4 b) = (a ?= b)%Z.
Proof.
  intros Ha Hb. unfold pad4, pad2. cbn [String.compare].
  rewrite !compare_digit_char. compare_by_digits.
Qed.

Lemma pad2_length (n : Z) : String.length (pad2 n) = 2%nat.
Proof. reflexivity. Qed.

Lemma pad4_length (n : Z) : String.length (pad4 n) = 4%nat.
Proof. reflexivity. Qed.

Lemma valid_datetime_ranges (t : datetime) :
  valid_datetime t = true ->
  (1 <= year t <= 9999 /\ 1 <= month t <= 12 /\ 1 <= day t <= 31
   /\ 0 <= hour t <= 23 /\ 0 <= minute t <= 59 /\ 0 <= second t <= 59)%Z.
Proof.
  unfold valid_datetime, valid_date. rewrite !andb_true_iff, !Z.leb_le.
  pose proof (days_in_month_le_31 (year t) (month t)). lia.
Qed.

Lemma date_text_compare (a b : datetime) :
  valid_datetime a = true -> valid_datetime b = true ->
  String.compare (date_text a) (date_text b)
  = tuple_compare (date_key a) (date_key b).
Proof.
  intros Ha Hb. apply valid_datetime_ranges in Ha, Hb.
  unfold date_text, date_key. cbn [tuple_compare].
  rewrite compare_append by reflexivity. rewrite compare_pad4 by lia.
  destruct (year a ?= year b)%Z; try reflexivity.
  cbn [append String.compare]. change (Ascii.compare "-" "-") with Eq. cbv iota.
  rewrite compare_append by reflexivity. rewrite compare_pad2 by lia.
  destruct (month a ?= month b)%Z; try reflexivity.
  cbn [append String.compare]. change (Ascii.compare "-" "-") with Eq. cbv iota.
  rewrite compare_pad2 by lia.
  destruct (day a ?= day b)%Z; reflexivity.
Qed.

Lemma sqlite_datetime_compare (a b : datetime) :
  valid_datetime a = true -> valid_datetime b = true ->
  String.compare (sqlite_datetime a) (sqlite_datetime b)
  = tuple_compare (second_key a) (second_key b).
Proof.
  intros Ha Hb. unfold sqlite_datetime.
  rewrite compare_append by reflexivity.
  rewrite (date_text_compare a b Ha Hb).
  apply valid_datetime_ranges in Ha, Hb.
  unfold date_key, second_key. cbn [tuple_compare].
  destruct (year a ?= year b)%Z; try reflexivity.
  destruct (month a ?= month b)%Z; try reflexivity.
  destruct (day a ?= day b)%Z; try reflexivity.
  cbn [append String.compare]. change (Ascii.compare " " " ") with Eq. cbv iota.
  rewrite compare_append by reflexivity. rewrite compare_pad2 by lia.
  destruct (hour a ?= hour b)%Z; try reflexivity.
  cbn [append String.compare]. change (Ascii.compare ":" ":") with Eq. cbv iota.
  rewrite compare_append by reflexivity. rewrite compare_pad2 by lia.
  destruct (minute a ?= minute b)%Z; try reflexivity.
  cbn [append String.compare]. change (Ascii.compare ":" ":") with Eq. cbv iota.
  rewrite compare_pad2 by lia.
  destruct (second a ?= second b)%Z; reflexivity.
Qed.


(* ------------------------------------------------------------------ *)
(** ** Order of datetimes *)

Lemma tuple_compare_refl (a : list Z) : tuple_compare a a = Eq.
Proof.
  induction a as [|x a IH]; simpl; [reflexivity|].
  now rewrite Z.compare_refl.
Qed.

Lemma tuple_compare_antisym (a b : list Z) :
  tuple_compare b a = CompOpp (tuple_compare a b).
Proof.
  revert b; induction a as [|x a IH]; intros [|y b]; simpl; try reflexivity.
  rewrite (Z.compare_antisym x y).
  destruct (x ?= y)%Z; simpl; auto.
Qed.

Lemma datetime_gt_irrefl (t : datetime) : datetime_gt t t = false.
Proof.
  unfold datetime_gt, datetime_compare. now rewrite tuple_compare_refl.
Qed.

Lemma datetime_gt_lt (a b : datetime) : datetime_gt a b = datetime_lt b a.
Proof.
  unfold datetime_gt, datetime_lt, datetime_compare.
  rewrite (tuple_compare_antisym (datetime_key b) (datetime_key a)).
  destruct (tuple_compare (datetime_key b) (datetime_key a)); reflexivity.
Qed.

(* ------------------------------------------------------------------ *)
(** ** Lookups in the links table *)

Lemma filter_none (A : Type) (f : A -> bool) (l : list A) :
  (forall x, In x l -> f x = false) -> filter f l = [].
Proof.
  induction l as [|a l IH]; simpl; intros H; [reflexivity|].
  rewrite (H a (or_introl eq_refl)). apply IH. intros x Hx. apply H. now right.
Qed.

Lemma filter_code_unique (ls : list link) (l : link) :
  NoDup (map short_code ls) -> In l ls ->
  filter (fun x => String.eqb (short_code x) (short_code l)) ls = [l].
Proof.
  induction ls as [|a ls IH]; simpl; intros Hnd Hin; [contradiction|].
  inversion Hnd as [|c cs Hnotin Hnd']; subst.
  destruct Hin as [-> | Hin].
  - rewrite String.eqb_refl. f_equal.
    apply filter_none. intros x Hx.
    apply String.eqb_neq. intros Heq. apply Hnotin.
    rewrite <- Heq. now apply in_map.
  - assert (Hne : short_code a <> short_code l).
    { intros Heq. apply Hnotin. rewrite Heq. now apply in_map. }
    apply String.eqb_neq in Hne. rewrite Hne. now apply IH.
Qed.

Lemma select_link_absent (code : string) (db : database) :
  (forall l, In l (links db) -> short_code l <> code) ->
  select_link code db = [].
Proof.
  intros H. unfold select_link. rewrite filter_none; [reflexivity|].
  intros x Hx. apply String.eqb_neq. now apply H.
Qed.

Lemma select_link_present (db : database) (l : link) :
  unique_codes db -> In l (links db) ->
  select_link (short_code l) db = [(original_url l, expiry_date l)].
Proof.
  intros Hu Hin. unfold select_link. now rewrite filter_code_unique.
Qed.

Lemma select_link_insert_click utc_now code c ip ua db :
  select_link code (insert_click utc_now c ip ua db) = select_link code db.
Proof. reflexivity. Qed.

(* ------------------------------------------------------------------ *)
(** ** The redirect handler *)

Lemma redirect_links_unchanged clk rq db :
  links (fst (redirect_to_original clk rq db)) = links db.
Proof.
  unfold redirect_to_original, leave_with. cbn [working connect execute commit].
  destruct (fetchone _) as [[url expiry]|]; [|reflexivity].
  destruct (expired (localtime clk) expiry) as [[|]|e]; cbn [bind];
    [| destruct (redirect url) |]; reflexivity.
Qed.

Lemma redirect_response clk rq db :
  snd (redirect_to_original clk rq db) =
  match fetchone (select_link (req_short_code rq) db) with
  | Some (url, expiry) =>
      match expired (localtime clk) expiry with
      | Ok true => Ok (Page "error.html" [("message", "This URL has expired")] 410)
      | Ok false => redirect url
      | Raise e => Raise e
      end
  | None => Ok (Page "error.html" [("message", "URL not found")] 404)
  end.
Proof.
  unfold redirect_to_original, leave_with. cbn [working connect execute commit].
  rewrite select_link_insert_click.
  destruct (fetchone _) as [[url expiry]|]; [|reflexivity].
  destruct (expired (localtime clk) expiry) as [[|]|e]; cbn [bind];
    [| destruct (redirect url) |]; reflexivity.
Qed.

(* ------------------------------------------------------------------ *)
(** ** The expiry check of the redirect handler *)

Lemma strptime_raises_value_error (s : string) (e : exn) :
  strptime s = Raise e -> e = ValueError.
Proof.
  unfold strptime.
  destruct (format_matches s) as [|[[[[[Y m] d] H] M] rest] others];
    [congruence|].
  destruct rest; [destruct (valid_date Y m d)|]; congruence.
Qed.

Lemma expired_text_parsed now s t :
  strptime s = Ok t -> expired now (SqlText s) = Ok (datetime_gt now t).
Proof.
  intros Hp. unfold expired. cbn [truthy].
  destruct (String.eqb_spec s "") as [-> | _]; [discriminate Hp|].
  cbn [negb]. now rewrite Hp.
Qed.

Lemma expired_of_expiry_time now v t :
  expiry_time v = Some t -> expired now v = Ok (datetime_gt now t).
Proof.
  destruct v as [|x|s|b]; cbn [expiry_time]; try discriminate.
  destruct (strptime s) as [t'|e] eqn:Hp; [|discriminate].
  intros [= <-]. now apply expired_text_parsed.
Qed.

Lemma expired_falsy now v : truthy v = false -> expired now v = Ok false.
Proof. intros H. unfold expired. now rewrite H. Qed.

(** A value that is true in Python and is not the text of a timestamp
    makes the check raise: ValueError from [strptime] on a text, TypeError
    on a number. *)
Lemma expired_unreadable now v :
  truthy v = true -> expiry_time v = None ->
  expired now v
  = Raise (match v with SqlText _ => ValueError | _ => TypeError end).
Proof.
  intros Ht Hn. unfold expired. rewrite Ht.
  destruct v as [|x|s|b]; try reflexivity.
  cbn [expiry_time] in Hn. destruct (strptime s) as [t|e] eqn:Hp; [discriminate|].
  cbn [bind]. now rewrite (strptime_raises_value_error s e Hp).
Qed.

Lemma expired_true_inv now v :
  expired now v = Ok true ->
  exists t, expiry_time v = Some t /\ datetime_gt now t = true.
Proof.
  unfold expired. destruct (truthy v); [|discriminate].
  destruct v as [|x|s|b]; try discriminate.
  cbn [expiry_time]. destruct (strptime s) as [t|e]; cbn [bind]; [|discriminate].
  intros [= H]. now exists t.
Qed.

(** Every stored value is of one of three kinds for the check. *)
Lemma expiry_cases now v :
  (truthy v = false
   \/ exists t, expiry_time v = Some t /\ datetime_gt now t = false)
  \/ (exists t, expiry_time v = Some t /\ datetime_gt now t = true)
  \/ (truthy v = true /\ expiry_time v = None).
Proof.
  destruct (expiry_time v) as [t|] eqn:Ht.
  - destruct (datetime_gt now t) eqn:Hgt.
    + right. left. now exists t.
    + left. right. now exists t.
  - destruct (truthy v); [right; right; now split | left; now left].
Qed.

(** The answer of the handler for the code of a stored link. *)
Lemma redirect_response_of_link clk rq db l :
  unique_codes db -> In l (links db) -> short_code l = req_short_code rq ->
  snd (redirect_to_original clk rq db) =
  match expired (localtime clk) (expiry_date l) with
  | Ok true => Ok (Page "error.html" [("message", "This URL has expired")] 410)
  | Ok false => redirect (original_url l)
  | Raise e => Raise e
  end.
Proof.
  intros Hu Hin Hcode. rewrite redirect_response, <- Hcode.
  now rewrite select_link_present by assumption.
Qed.

(** C1, as the code has it.  The links table is the same after every
    redirect request.  A request for a code that no link carries is
    answered with the 404 error page.  For the code of a link: when the
    link is not expired (its expiry is NULL, empty or zero, or it reads as a
    timestamp that now does not exceed) the answer is what [redirect] makes
    of the original URL, a redirect to it, or ValueError when the URL has a
    carriage return or a line feed in it; when the expiry reads as a
    timestamp that now exceeds, the answer is the 410 error page and the
    link is still in the table; when the expiry is neither (a text that is
    not a timestamp of the format, a number other than zero) the check
    raises, ValueError for a text and TypeError otherwise.  Every stored
    link is of one of these three kinds. *)
Theorem redirect_to_original_cases :
  forall (clk : clock) (rq : redirect_request) (db : database),
    unique_codes db ->
    links (fst (redirect_to_original clk rq db)) = links db
    /\ ((forall l, In l (links db) -> short_code l <> req_short_code rq) ->
        snd (redirect_to_original clk rq db)
        = Ok (Page "error.html" [("message", "URL not found")] 404))
    /\ (forall l, In l (links db) -> short_code l = req_short_code rq ->
        ((truthy (expiry_date l) = false
          \/ exists t, expiry_time (expiry_date l) = Some t
                       /\ datetime_gt (localtime clk) t = false) ->
         (has_newline (original_url l) = false ->
          snd (redirect_to_original clk rq db) = Ok (RedirectTo (original_url l)))
         /\ (has_newline (original_url l) = true ->
             snd (redirect_to_original clk rq db) = Raise ValueError))
        /\ ((exists t, expiry_time (expiry_date l) = Some t
                       /\ datetime_gt (localtime clk) t = true) ->
            snd (redirect_to_original clk rq db)
            = Ok (Page "error.html" [("message", "This URL has expired")] 410)
            /\ In l (links (fst (redirect_to_original clk rq db))))
        /\ (truthy (expiry_date l) = true -> expiry_time (expiry_date l) = None ->
            snd (redirect_to_original clk rq db)
            = Raise (match expiry_date l with
                     | SqlText _ => ValueError
                     | _ => TypeError
                     end))
        /\ ((truthy (expiry_date l) = false
             \/ exists t, expiry_time (expiry_date l) = Some t
                          /\ datetime_gt (localtime clk) t = false)
            \/ (exists t, expiry_time (expiry_date l) = Some t
                          /\ datetime_gt (localtime clk) t = true)
            \/ (truthy (expiry_date l) = true
                /\ expiry_time (expiry_date l) = None))).
Proof.
  intros clk rq db Hu. split; [apply redirect_links_unchanged|]. split.
  - intros Habs. rewrite redirect_response, select_link_absent by assumption.
    reflexivity.
  - intros l Hin Hcode.
    rewrite (redirect_response_of_link clk rq db l Hu Hin Hcode).
    split; [|split; [|split]]; [| | |apply expiry_cases].
    + intros Hnot.
      assert (Hx : expired (localtime clk) (expiry_date l) = Ok false).
      { destruct Hnot as [Hf | (t & Ht & Hgt)]; [now apply expired_falsy|].
        now rewrite (expired_of_expiry_time _ _ t Ht), Hgt. }
      rewrite Hx. unfold redirect. split; intros ->; reflexivity.
    + intros (t & Ht & Hgt).
      rewrite (expired_of_expiry_time _ _ t Ht), Hgt. split; [reflexivity|].
      now rewrite redirect_links_unchanged.
    + intros Htr Hn. now rewrite expired_unreadable.
Qed.

(** C1, the claim as worded, refuted.  A stored link without expiry whose
    URL has a line break in it is not expired, and a request for its code
    is answered with ValueError instead of a redirect.  A stored link whose
    expiry carries seconds, as ['2024-01-01T10:00:30'], is answered with
    ValueError two hours after that time, and one whose expiry is the
    number 5 with TypeError: not with the 404 page, not with a redirect and
    not with the 410 page. *)
Lemma redirect_raises_for_stored_links :
  (unique_codes Sample.line_break_db
   /\ In Sample.line_break (links Sample.line_break_db)
   /\ expiry_date Sample.line_break = SqlNull
   /\ snd (redirect_to_original Sample.clk (Sample.get "Cr1fLf")
             Sample.line_break_db)
      = Raise ValueError)
  /\ (unique_codes Sample.with_seconds_db
      /\ In Sample.with_seconds (links Sample.with_seconds_db)
      /\ expiry_date Sample.with_seconds = SqlText "2024-01-01T10:00:30"
      /\ snd (redirect_to_original Sample.clk (Sample.get "Sec0nd")
                Sample.with_seconds_db)
         = Raise ValueError)
  /\ (unique_codes Sample.five_db
      /\ In Sample.five (links Sample.five_db)
      /\ expiry_date Sample.five = numeric_affinity Sample.atof "5"
      /\ snd (redirect_to_original Sample.clk (Sample.get "F1ve55")
                Sample.five_db)
         = Raise TypeError).
Proof.
  repeat (split; [ repeat constructor; simpl; tauto | ]).
  repeat constructor; simpl; tauto.
Qed.

(* ------------------------------------------------------------------ *)
(** ** The expiry check of the redirect handler *)

(** C2. The expiry check returns not expired for a null [expiry_date]; it
    returns expired exactly when the stored value reads as a timestamp and
    now is strictly greater than that timestamp, so that for every stored
    value that reads as a timestamp the check returns the comparison
    [now > expiry]; now equal to the expiry is not expired. *)
Theorem expired_iff_now_after_expiry :
  forall (now : datetime) (l : link),
    (expiry_date l = SqlNull -> expired now (expiry_date l) = Ok false)
    /\ (expired now (expiry_date l) = Ok true <->
        exists t, expiry_time (expiry_date l) = Some t /\ datetime_gt now t = true)
    /\ (forall t, expiry_time (expiry_date l) = Some t ->
        expired now (expiry_date l) = Ok (datetime_gt now t)
        /\ datetime_gt now t = datetime_lt t now
        /\ expired t (expiry_date l) = Ok false).
Proof.
  intros now l.
  assert (Hparsed : forall n t, expiry_time (expiry_date l) = Some t ->
                           expired n (expiry_date l) = Ok (datetime_gt n t)).
  { intros n t. destruct (expiry_date l) as [|x|s|b]; cbn [expiry_time];
      try discriminate.
    destruct (strptime s) as [t'|e] eqn:Hp; [|discriminate].
    intros [= <-]. now apply expired_text_parsed. }
  split; [intros ->; reflexivity|]. split.
  - split; [apply expired_true_inv|].
    intros (t & Ht & Hgt). rewrite (Hparsed now t Ht). now rewrite Hgt.
  - intros t Ht. split; [now apply Hparsed|]. split; [apply datetime_gt_lt|].
    rewrite (Hparsed t t Ht). now rewrite datetime_gt_irrefl.
Qed.

(* ------------------------------------------------------------------ *)
(** ** Click recording *)

Lemma redirect_database clk rq db :
  fst (redirect_to_original clk rq db)
  = insert_click (utc clk) (req_short_code rq) (remote_addr rq)
      (user_agent_string rq) db.
Proof.
  unfold redirect_to_original, leave_with. cbn [working connect execute commit].
  destruct (fetchone _) as [[url expiry]|]; [|reflexivity].
  destruct (expired (localtime clk) expiry) as [[|]|e]; cbn [bind];
    [| destruct (redirect url) |]; reflexivity.
Qed.

(** C4. Every redirect request appends exactly one row to the clicks
    table, carrying the requested code, whatever the handler goes on to
    answer (redirect, 404, 410 or an exception); for a code that no link
    carries the handler does not raise: it returns the 404 page. *)
Theorem redirect_records_one_click :
  forall (clk : clock) (rq : redirect_request) (db : database),
    (exists c : click,
        clicks (fst (redirect_to_original clk rq db)) = clicks db ++ [c]
        /\ click_short_code c = req_short_code rq
        /\ ip_address c = remote_addr rq
        /\ user_agent c = user_agent_string rq)
    /\ ((forall l, In l (links db) -> short_code l <> req_short_code rq) ->
        snd (redirect_to_original clk rq db)
        = Ok (Page "error.html" [("message", "URL not found")] 404)).
Proof.
  intros clk rq db. split.
  - rewrite redirect_database. unfold insert_click. cbn [clicks].
    eexists. split; [reflexivity|]. cbn. auto.
  - intros Habs. rewrite redirect_response, select_link_absent by assumption.
    reflexivity.
Qed.

(* ------------------------------------------------------------------ *)
(** ** Creating a link *)

Lemma insert_link_duplicate atof utc_now url code expiry db :
  (exists l, In l (links db) /\ short_code l = code) ->
  insert_link atof utc_now url code expiry db = Raise IntegrityError.
Proof.
  intros (l & Hin & Hc). unfold insert_link.
  assert (H : existsb (fun x => String.eqb (short_code x) code) (links db) = true).
  { apply existsb_exists. exists l. split; [assumption|]. now apply String.eqb_eq. }
  now rewrite H.
Qed.

Lemma insert_link_fresh atof utc_now url code expiry db :
  (forall l, In l (links db) -> short_code l <> code) ->
  exists id,
    insert_link atof utc_now url code expiry db
    = Ok {| links := links db ++ [mkLink id url code
                                         (numeric_affinity atof expiry)
                                         (sqlite_datetime utc_now)];
            clicks := clicks db; links_seq := id; clicks_seq := clicks_seq db |}.
Proof.
  intros Hfresh. unfold insert_link.
  assert (H : existsb (fun x => String.eqb (short_code x) code) (links db) = false).
  { destruct (existsb _ _) eqn:E; [|reflexivity].
    apply existsb_exists in E. destruct E as (l & Hin & Heq).
    apply String.eqb_eq in Heq. now elim (Hfresh l Hin). }
  rewrite H. eexists. reflexivity.
Qed.

(** The UNIQUE constraint is an invariant of [insert_link]. *)
Lemma insert_link_unique_codes atof utc_now url code expiry db db' :
  unique_codes db -> insert_link atof utc_now url code expiry db = Ok db' ->
  unique_codes db'.
Proof.
  unfold insert_link, unique_codes.
  destruct (existsb _ _) eqn:E; [discriminate|].
  intros Hu [= <-]. cbn [links]. rewrite map_app. cbn [map short_code].
  apply NoDup_app; [assumption | repeat constructor; simpl; tauto |].
  intros a Ha [Heq | []]. subst a.
  apply in_map_iff in Ha. destruct Ha as (l & Hl & Hin).
  assert (existsb (fun x => String.eqb (short_code x) code) (links db) = true).
  { apply existsb_exists. exists l. split; [assumption|]. now apply String.eqb_eq. }
  congruence.
Qed.

(** C5. When a link already carries the drawn code, creating the link
    fails: the INSERT raises IntegrityError, nothing catches it, so the
    handler's outcome is that exception and not a rendered page, and the
    database is left as it was.  [index] has this outcome for every code of
    the generator that a link already carries. *)
Theorem duplicate_code_raises :
  forall (atof : string -> number) (clk : clock)
         (host url expiry code : string) (db : database),
    (exists l, In l (links db) /\ short_code l = code) ->
    store_link atof clk host url expiry code db = (db, Raise IntegrityError)
    /\ (In code generate_short_code ->
        In (db, Raise IntegrityError)
           (index atof clk (mkIndexRequest POST (Some url) (Some expiry) host) db)).
Proof.
  intros atof clk host url expiry code db Hdup.
  assert (Hs : store_link atof clk host url expiry code db
               = (db, Raise IntegrityError)).
  { unfold store_link. cbn [working connect].
    rewrite insert_link_duplicate by assumption. reflexivity. }
  split; [exact Hs|].
  intros Hcode. unfold index. cbn [method form_url form_expiry_date form_field host_url].
  apply in_map_iff. exists code. split; assumption.
Qed.

(* ------------------------------------------------------------------ *)
(** ** The key constraints are invariants *)

Lemma fold_max_ge (seq : Z) (ids : list Z) :
  (seq <= fold_right Z.max seq ids)%Z
  /\ forall x, In x ids -> (x <= fold_right Z.max seq ids)%Z.
Proof.
  induction ids as [|a ids [IHs IH]]; cbn [fold_right].
  - split; [lia | intros x []].
  - split; [lia|]. intros x [<- | Hx]; [lia|]. specialize (IH x Hx). lia.
Qed.

Lemma next_rowid_fresh (seq : Z) (ids : list Z) : ~ In (next_rowid seq ids) ids.
Proof.
  intros Hin. apply (proj2 (fold_max_ge seq ids)) in Hin.
  unfold next_rowid in Hin. lia.
Qed.

Lemma insert_link_unique_ids atof utc_now url code expiry db db' :
  unique_ids db -> insert_link atof utc_now url code expiry db = Ok db' ->
  unique_ids db'.
Proof.
  unfold insert_link, unique_ids. destruct (existsb _ _); [discriminate|].
  intros Hu [= <-]. cbn [links]. rewrite map_app. cbn [map link_id].
  apply NoDup_app; [assumption | repeat constructor; simpl; tauto |].
  intros a Ha [Heq | []]. subst a. now apply next_rowid_fresh in Ha.
Qed.

Lemma store_link_unique_codes atof clk host url expiry code db :
  unique_codes db ->
  unique_codes (fst (store_link atof clk host url expiry code db)).
Proof.
  intros Hu. unfold store_link. cbn [working connect].
  destruct (insert_link atof (utc clk) url code expiry db) as [w|e] eqn:E;
    cbn; [|assumption].
  now apply (insert_link_unique_codes atof (utc clk) url code expiry db).
Qed.

Lemma redirect_unique_codes clk rq db :
  unique_codes db -> unique_codes (fst (redirect_to_original clk rq db)).
Proof. unfold unique_codes. now rewrite redirect_links_unchanged. Qed.

(* ------------------------------------------------------------------ *)
(** ** The sweep *)

Lemma delete_expired_links_links utc_now db :
  links (delete_expired_links utc_now db)
  = filter (fun l => negb (where_true
              (sql_lt_text (expiry_date l) (sqlite_datetime utc_now))))
           (links db).
Proof. reflexivity. Qed.

Lemma sweep_keeps_iff utc_now db l :
  In l (links (delete_expired_links utc_now db)) <->
  In l (links db)
  /\ where_true (sql_lt_text (expiry_date l) (sqlite_datetime utc_now)) = false.
Proof.
  rewrite delete_expired_links_links, filter_In, negb_true_iff. reflexivity.
Qed.

(** A null expiry is never swept: NULL < text is NULL, not true. *)
Lemma sweep_keeps_null_expiry utc_now db l :
  In l (links db) -> expiry_date l = SqlNull ->
  In l (links (delete_expired_links utc_now db)).
Proof.
  intros Hin Hnull. apply sweep_keeps_iff. split; [assumption|].
  now rewrite Hnull.
Qed.

Lemma sweep_unique_codes utc_now db :
  unique_codes db -> unique_codes (delete_expired_links utc_now db).
Proof.
  unfold unique_codes. rewrite delete_expired_links_links.
  generalize (links db) as ls. induction ls as [|a ls IH]; simpl; intros Hnd.
  - constructor.
  - inversion Hnd as [|c cs Hnotin Hnd']; subst.
    destruct (negb _); [|now apply IH].
    simpl. constructor; [|now apply IH].
    intros Hin. apply Hnotin. apply in_map_iff in Hin.
    destruct Hin as (x & Hx & Hin). apply filter_In in Hin.
    apply in_map_iff. exists x. tauto.
Qed.

(** Bytewise comparison of two texts that differ at the character after
    a prefix of equal length. *)
Lemma compare_after_prefix (d1 d2 : string) (c1 c2 : ascii) (t1 t2 : string) :
  String.length d1 = String.length d2 ->
  String.compare (d1 ++ String c1 t1) (d2 ++ String c2 t2)
  = match String.compare d1 d2 with
    | Eq => match Ascii.compare c1 c2 with
            | Eq => String.compare t1 t2
            | c => c
            end
    | c => c
    end.
Proof.
  revert d2. induction d1 as [|a d1 IH]; intros [|b d2]; simpl;
    try discriminate; intros Hlen; [reflexivity|].
  destruct (Ascii.compare a b); try reflexivity.
  apply IH. now injection Hlen.
Qed.

Lemma date_text_length (t : datetime) : String.length (date_text t) = 10%nat.
Proof. reflexivity. Qed.

Lemma ltb_T_vs_space (d1 d2 t1 t2 : string) :
  String.length d1 = String.length d2 ->
  String.ltb (d1 ++ String "T" t1) (d2 ++ String " " t2) = String.ltb d1 d2.
Proof.
  intros Hlen. unfold String.ltb. rewrite compare_after_prefix by assumption.
  destruct (String.compare d1 d2); reflexivity.
Qed.

Lemma compare_refl (s : string) : String.compare s s = Eq.
Proof.
  induction s as [|a s IH]; simpl; [reflexivity|].
  assert (H : Ascii.compare a a = Eq).
  { unfold Ascii.compare. apply N.compare_refl. }
  now rewrite H.
Qed.

(** The WHERE clause of the sweep on a text with a ten-character date
    part followed by [T]: only the date parts are compared. *)
Lemma sweep_condition_date_part (utc_now : datetime) (d t : string) :
  String.length d = 10%nat ->
  where_true (sql_lt_text (SqlText (d ++ String "T" t)) (sqlite_datetime utc_now))
  = String.ltb d (date_text utc_now).
Proof.
  intros Hlen. cbn [sql_lt_text]. unfold sqlite_datetime. cbn [append].
  rewrite ltb_T_vs_space by (now rewrite date_text_length).
  destruct (String.ltb d (date_text utc_now)); reflexivity.
Qed.

Lemma sweep_keeps_same_day (utc_now e : datetime) (db : database) (l : link) :
  In l (links db) ->
  expiry_date l = SqlText (datetime_local e) ->
  year e = year utc_now -> month e = month utc_now -> day e = day utc_now ->
  In l (links (delete_expired_links utc_now db)).
Proof.
  intros Hin He Hy Hm Hd. apply sweep_keeps_iff. split; [assumption|].
  rewrite He. unfold datetime_local. cbn [append].
  rewrite sweep_condition_date_part by apply date_text_length.
  unfold date_text. rewrite Hy, Hm, Hd. unfold String.ltb.
  now rewrite compare_refl.
Qed.

(** The handler and the sweep disagree on every link that expired earlier
    on the day of the sweep: the handler answers 410, the sweep keeps the
    row. *)
Lemma sweep_misses_link_expired_today (now e : datetime) (db : database) (l : link) :
  valid_datetime e = true ->
  In l (links db) ->
  expiry_date l = SqlText (datetime_local e) ->
  year e = year now -> month e = month now -> day e = day now ->
  (hour e < hour now \/ hour e = hour now /\ minute e < minute now)%Z ->
  expired now (expiry_date l) = Ok true
  /\ In l (links (delete_expired_links now db)).
Proof.
  intros Hv Hin He Hy Hm Hd Hlater. split.
  - rewrite He, (expired_text_parsed now _ _ (strptime_datetime_local e Hv)).
    f_equal. unfold datetime_gt, datetime_compare, datetime_key.
    cbn [tuple_compare year month day hour minute second microsecond].
    rewrite Hy, Hm, Hd, !Z.compare_refl.
    destruct Hlater as [Hh | [Hh Hmin]].
    + apply Z.compare_gt_iff in Hh. now rewrite Hh.
    + rewrite Hh, Z.compare_refl. apply Z.compare_gt_iff in Hmin. now rewrite Hmin.
  - now apply (sweep_keeps_same_day now e db l).
Qed.

(** On a value stored from the form, the sweep deletes exactly the links
    whose expiry is on an earlier calendar date than now. *)
Lemma sweep_deletes_iff_earlier_date (utc_now e : datetime) (db : database) (l : link) :
  valid_datetime e = true -> valid_datetime utc_now = true ->
  In l (links db) ->
  expiry_date l = SqlText (datetime_local e) ->
  (~ In l (links (delete_expired_links utc_now db))
   <-> tuple_compare (date_key e) (date_key utc_now) = Lt).
Proof.
  intros Hve Hvn Hin He. rewrite sweep_keeps_iff, He. unfold datetime_local.
  cbn [append]. rewrite sweep_condition_date_part by apply date_text_length.
  unfold String.ltb. rewrite (date_text_compare e utc_now Hve Hvn).
  destruct (tuple_compare (date_key e) (date_key utc_now)); split;
    try congruence; try tauto.
  intros _ [_ Hf]. discriminate Hf.
Qed.

(** C9. For a link whose stored expiry is a text with a ten-character
    date part followed by [T], the sweep at [utc_now] deletes the link
    exactly when the date part is lexicographically before the date part
    of SQLite's text of now; the time of day never matters.  So a link
    stored from a [datetime-local] value of the same calendar date as now
    is kept whatever its hour and minute, and among the links stored from
    the form the sweep deletes exactly those of an earlier calendar
    date. *)
Theorem sweep_compares_date_part_only :
  forall (utc_now : datetime) (db : database) (l : link),
    In l (links db) ->
    (forall d t : string,
        expiry_date l = SqlText (d ++ String "T" t) ->
        String.length d = 10%nat ->
        (~ In l (links (delete_expired_links utc_now db))
         <-> String.ltb d (date_text utc_now) = true))
    /\ (forall e : datetime,
           expiry_date l = SqlText (datetime_local e) ->
           year e = year utc_now -> month e = month utc_now ->
           day e = day utc_now ->
           In l (links (delete_expired_links utc_now db)))
    /\ (forall e : datetime,
           expiry_date l = SqlText (datetime_local e) ->
           valid_datetime e = true -> valid_datetime utc_now = true ->
           (~ In l (links (delete_expired_links utc_now db))
            <-> tuple_compare (date_key e) (date_key utc_now) = Lt)).
Proof.
  intros utc_now db l Hin. split; [|split].
  - intros d t He Hlen.
    rewrite sweep_keeps_iff, He, (sweep_condition_date_part utc_now d t Hlen).
    destruct (String.ltb d (date_text utc_now)); split.
    + reflexivity.
    + intros _ [_ Hf]. discriminate Hf.
    + intros H. exfalso. apply H. split; [assumption | reflexivity].
    + discriminate.
  - intros e. now apply sweep_keeps_same_day.
  - intros e He Hve Hvn. now apply sweep_deletes_iff_earlier_date.
Qed.

Lemma sweep_compares_date_part_only_witness :
  In Sample.morning (links Sample.db)
  /\ (~ In Sample.morning (links (delete_expired_links Sample.noon Sample.db))
      <-> String.ltb "2024-01-01" (date_text Sample.noon) = true)
  /\ In Sample.morning (links (delete_expired_links Sample.noon Sample.db)).
Proof.
  assert (Hin : In Sample.morning (links Sample.db)) by (simpl; tauto).
  pose proof (sweep_compares_date_part_only Sample.noon Sample.db
                Sample.morning Hin) as (Htext & Hday & _).
  split; [exact Hin|]. split.
  - apply (Htext "2024-01-01" "10:00"); reflexivity.
  - apply (Hday (mkDatetime 2024 1 1 10 0 0 0)); reflexivity.
Defined.

(** C3 (what the code does at a link that expired earlier on the day of
    the sweep).  The stored expiry reads as 10:00 of 1 January 2024, which
    is strictly before now, 12:00 of that day, and the redirect handler
    reports the link as expired; the sweep nevertheless keeps the link, as
    the text [2024-01-01T10:00] is not less than [2024-01-01 12:00:00]. *)
Theorem sweep_keeps_link_expired_earlier_today :
  expiry_time (expiry_date Sample.morning) = Some (mkDatetime 2024 1 1 10 0 0 0)
  /\ datetime_lt (mkDatetime 2024 1 1 10 0 0 0) Sample.noon = true
  /\ expired Sample.noon (expiry_date Sample.morning) = Ok true
  /\ sql_lt_text (expiry_date Sample.morning) (sqlite_datetime Sample.noon)
     = Some false
  /\ In Sample.morning (links (delete_expired_links Sample.noon Sample.db)).
Proof.
  repeat split; try reflexivity.
  apply sweep_keeps_iff. split; [simpl; tauto | reflexivity].
Qed.

(* ------------------------------------------------------------------ *)
(** ** A blank expiry field *)

Lemma ltb_empty (t : string) : t <> "" -> String.ltb "" t = true.
Proof. destruct t; [congruence | reflexivity]. Qed.

Lemma sqlite_datetime_nonempty (t : datetime) : sqlite_datetime t <> "".
Proof. intros H. apply (f_equal String.length) in H. discriminate H. Qed.

(** C10, as the code has it.  A link whose stored expiry is the empty
    text, which is what creating a link with the expiry field left blank
    stores, is never expired for the redirect handler: at every clock
    reading the answer is what [redirect] makes of the original URL, a
    redirect to it, or ValueError when the URL has a carriage return or a
    line feed in it, and never the 410 page; its [expiry_date] is not NULL;
    and the comparison of the sweep finds the empty text less than every
    non-empty text, in particular than SQLite's text of any now, so that
    the sweep deletes the link. *)
Theorem blank_expiry_redirects_and_is_swept :
  forall (clk : clock) (rq : redirect_request) (db : database) (l : link),
    unique_codes db ->
    In l (links db) ->
    short_code l = req_short_code rq ->
    expiry_date l = SqlText "" ->
    (expired (localtime clk) (expiry_date l) = Ok false
     /\ snd (redirect_to_original clk rq db) = redirect (original_url l)
     /\ (has_newline (original_url l) = false ->
         snd (redirect_to_original clk rq db) = Ok (RedirectTo (original_url l)))
     /\ (has_newline (original_url l) = true ->
         snd (redirect_to_original clk rq db) = Raise ValueError)
     /\ snd (redirect_to_original clk rq db)
        <> Ok (Page "error.html" [("message", "This URL has expired")] 410))
    /\ expiry_date l <> SqlNull
    /\ (forall t, t <> "" -> sql_lt_text (expiry_date l) t = Some true)
    /\ (forall utc_now,
           sql_lt_text (expiry_date l) (sqlite_datetime utc_now) = Some true
           /\ ~ In l (links (delete_expired_links utc_now db)))
    /\ (forall atof host url code,
           (forall x, In x (links db) -> short_code x <> code) ->
           exists id,
             links (fst (store_link atof clk host url "" code db))
             = links db ++ [mkLink id url code (SqlText "")
                                   (sqlite_datetime (utc clk))]).
Proof.
  intros clk rq db l Hu Hin Hcode Hblank.
  assert (Hlt : forall t, t <> "" -> sql_lt_text (expiry_date l) t = Some true).
  { intros t Ht. rewrite Hblank. cbn [sql_lt_text]. now rewrite ltb_empty. }
  assert (Hx : expired (localtime clk) (expiry_date l) = Ok false)
    by now rewrite Hblank.
  assert (Hr : snd (redirect_to_original clk rq db) = redirect (original_url l)).
  { rewrite (redirect_response_of_link clk rq db l Hu Hin Hcode). now rewrite Hx. }
  split; [|split; [|split; [|split]]].
  - split; [exact Hx|]. split; [exact Hr|]. rewrite Hr. unfold redirect.
    split; [|split]; try (intros ->; reflexivity).
    destruct (has_newline (original_url l)); discriminate.
  - rewrite Hblank. discriminate.
  - exact Hlt.
  - intros utc_now.
    pose proof (Hlt _ (sqlite_datetime_nonempty utc_now)) as H.
    split; [exact H|]. rewrite sweep_keeps_iff, H. cbn. intros [_ Hf].
    discriminate Hf.
  - intros atof host url code Hfresh. unfold store_link. cbn [working connect].
    destruct (insert_link_fresh atof (utc clk) url code "" db Hfresh) as (id & ->).
    exists id. reflexivity.
Qed.

Lemma blank_expiry_redirects_and_is_swept_witness :
  unique_codes Sample.db
  /\ snd (redirect_to_original Sample.clk (Sample.get "Ab3dE9") Sample.db)
     = Ok (RedirectTo "https://example.com")
  /\ ~ In Sample.blank (links (delete_expired_links Sample.noon Sample.db)).
Proof.
  assert (Hu : unique_codes Sample.db).
  { unfold unique_codes. simpl. repeat constructor; simpl; intuition discriminate. }
  assert (Hin : In Sample.blank (links Sample.db)) by (simpl; tauto).
  pose proof (blank_expiry_redirects_and_is_swept Sample.clk
                (Sample.get "Ab3dE9") Sample.db Sample.blank Hu Hin
                eq_refl eq_refl) as ((_ & _ & Hr & _) & _ & _ & Hs & _).
  split; [exact Hu|]. split; [exact (Hr eq_refl)|].
  exact (proj2 (Hs Sample.noon)).
Defined.

(** C10, the claim as worded, refuted.  A link stored with a blank expiry
    and with a line feed in its URL is not answered with a redirect to that
    URL: the handler raises ValueError. *)
Lemma blank_expiry_with_line_break_raises :
  unique_codes Sample.blank_line_break_db
  /\ In Sample.blank_line_break (links Sample.blank_line_break_db)
  /\ expiry_date Sample.blank_line_break = SqlText ""
  /\ snd (redirect_to_original Sample.clk (Sample.get "B1ankL")
            Sample.blank_line_break_db)
     = Raise ValueError
  /\ snd (redirect_to_original Sample.clk (Sample.get "B1ankL")
            Sample.blank_line_break_db)
     <> Ok (RedirectTo (original_url Sample.blank_line_break)).
Proof.
  split; [repeat constructor; simpl; tauto|].
  split; [now left|]. split; [reflexivity|]. split; [reflexivity|].
  discriminate.
Qed.

(* ------------------------------------------------------------------ *)
(** ** The code generator *)

Lemma filter_flat_map {A B : Type} (f : B -> bool) (g : A -> list B) (l : list A) :
  filter f (flat_map g l) = flat_map (fun a => filter f (g a)) l.
Proof.
  induction l as [|a l IH]; [reflexivity|].
  cbn [flat_map]. now rewrite filter_app, IH.
Qed.

Lemma filter_map_comm {A B : Type} (f : B -> bool) (g : A -> B) (l : list A) :
  filter f (map g l) = map g (filter (fun a => f (g a)) l).
Proof.
  induction l as [|a l IH]; [reflexivity|].
  cbn [map filter]. destruct (f (g a)); cbn [map]; now rewrite IH.
Qed.

Lemma flat_map_length_const {A B : Type} (g : A -> list B) (k : nat) (l : list A) :
  (forall a, List.length (g a) = k) ->
  List.length (flat_map g l) = (List.length l * k)%nat.
Proof.
  intros Hk. induction l as [|a l IH]; [reflexivity|].
  cbn [flat_map List.length]. rewrite length_app, Hk, IH. lia.
Qed.

Lemma filter_all {A : Type} (f : A -> bool) (l : list A) :
  (forall x, In x l -> f x = true) -> filter f l = l.
Proof.
  induction l as [|a l IH]; simpl; intros H; [reflexivity|].
  rewrite (H a (or_introl eq_refl)). f_equal. apply IH. intros x Hx. apply H. now right.
Qed.

Section JoinChoices.

Variable chars : list ascii.

Lemma join_choices_length (n : nat) :
  List.length (join_choices n chars) = (List.length chars ^ n)%nat.
Proof.
  induction n as [|n IH]; [reflexivity|].
  cbn [join_choices]. unfold random_choice.
  rewrite (flat_map_length_const _ (List.length chars ^ n)).
  - now rewrite Nat.pow_succ_r'.
  - intros a. now rewrite length_map.
Qed.

Lemma join_choices_In (n : nat) (s : string) :
  In s (join_choices n chars) <->
  String.length s = n /\ Forall (fun c => In c chars) (list_ascii_of_string s).
Proof.
  revert s. induction n as [|n IH]; intros s.
  - cbn [join_choices In]. split.
    + intros [<- | []]. split; [reflexivity | constructor].
    + intros [Hlen _]. destruct s; [now left | discriminate].
  - cbn [join_choices]. unfold random_choice. rewrite in_flat_map. split.
    + intros (c & Hc & Hin). apply in_map_iff in Hin.
      destruct Hin as (r & <- & Hr). apply IH in Hr. destruct Hr as [Hlen Hall].
      cbn [String.length list_ascii_of_string]. split; [now f_equal|].
      now constructor.
    + intros [Hlen Hall]. destruct s as [|c r]; [discriminate|].
      cbn [list_ascii_of_string] in Hall. inversion Hall as [|x xs Hc Hr]; subst.
      exists c. split; [assumption|]. apply in_map. apply IH.
      split; [now injection Hlen | assumption].
Qed.

Lemma NoDup_prefixed (l : list ascii) (xs : list string) :
  NoDup l -> NoDup xs -> NoDup (flat_map (fun c => map (String c) xs) l).
Proof.
  intros Hl Hxs. induction Hl as [|a l Hnotin Hl IH]; cbn [flat_map].
  - constructor.
  - apply NoDup_app.
    + apply Finite.Injective_map_NoDup; [|assumption].
      intros x y [= H]. exact H.
    + exact IH.
    + intros s Hs Hs'. apply in_map_iff in Hs. destruct Hs as (r & <- & _).
      apply in_flat_map in Hs'. destruct Hs' as (c & Hc & Hin).
      apply in_map_iff in Hin. destruct Hin as (r' & [= -> _] & _).
      contradiction.
Qed.

Lemma join_choices_NoDup (n : nat) :
  NoDup chars -> NoDup (join_choices n chars).
Proof.
  intros Hnd. induction n as [|n IH]; cbn [join_choices].
  - repeat constructor. simpl. tauto.
  - now apply NoDup_prefixed.
Qed.

(** The results that start with [c]: one block out of [l] when [c]
    occurs once in [l]. *)
Lemma first_char_count (c : ascii) (xs : list string) (l : list ascii) :
  NoDup l -> In c l ->
  List.length (flat_map
    (fun a => filter (has_char_at 0 c) (map (String a) xs)) l)
  = List.length xs.
Proof.
  intros Hnd. induction Hnd as [|a l Hnotin Hnd IH]; [contradiction|].
  assert (Hblock : forall b, b <> c -> filter (has_char_at 0 c) (map (String b) xs) = []).
  { intros b Hb. apply filter_none. intros s Hs. apply in_map_iff in Hs.
    destruct Hs as (r & <- & _). unfold has_char_at, char_at. cbn.
    now apply Ascii.eqb_neq. }
  assert (Hnone : forall l', ~ In c l' ->
            flat_map (fun a => filter (has_char_at 0 c) (map (String a) xs)) l' = []).
  { induction l' as [|b l' IHl']; [reflexivity|]. intros Hn. cbn [flat_map].
    rewrite Hblock, IHl'; [reflexivity | | ]; intros H; apply Hn; simpl; auto. }
  intros [-> | Hin]; cbn [flat_map]; rewrite length_app.
  - rewrite Hnone by assumption. rewrite filter_map_comm, length_map.
    rewrite filter_all.
    + cbn. lia.
    + intros s _. unfold has_char_at, char_at. cbn. apply Ascii.eqb_refl.
  - rewrite IH by assumption. rewrite Hblock; [reflexivity|].
    intros ->. contradiction.
Qed.

Lemma position_count (n i : nat) (c : ascii) :
  NoDup chars -> In c chars -> (i < n)%nat ->
  (List.length chars
   * List.length (filter (has_char_at i c) (join_choices n chars)))%nat
  = List.length (join_choices n chars).
Proof.
  intros Hnd Hc. revert i. induction n as [|n IH]; intros i Hi; [lia|].
  rewrite (join_choices_length (S n)). cbn [join_choices]. unfold random_choice.
  rewrite filter_flat_map. destruct i as [|i].
  - rewrite first_char_count by assumption.
    rewrite join_choices_length, Nat.pow_succ_r'. reflexivity.
  - rewrite (flat_map_length_const _
               (List.length (filter (has_char_at i c) (join_choices n chars)))).
    + rewrite Nat.pow_succ_r', <- join_choices_length, <- (IH i) by lia. lia.
    + intros a. rewrite filter_map_comm, length_map. reflexivity.
Qed.

End JoinChoices.

Lemma characters_NoDup : NoDup characters.
Proof.
  unfold characters. cbn.
  repeat (constructor; [cbn; intuition discriminate|]). constructor.
Qed.

Lemma characters_alphanumeric : Forall (fun c => is_alphanumeric c = true) characters.
Proof. unfold characters. cbn. repeat constructor. Qed.

(** C6. Every result of the generator has length 6 and consists of
    characters of the alphabet, which is the 26 lowercase letters, the 26
    uppercase letters and the 10 digits, 62 distinct characters, all
    alphanumeric.  The results are equally likely: at each of the six
    positions each character of the alphabet appears in one 62nd of the
    results, and every string of six characters of the alphabet is exactly
    one of the 62^6 results. *)
Theorem generate_short_code_alphanumeric_uniform :
  (forall s, In s generate_short_code ->
     String.length s = 6%nat
     /\ Forall (fun c => In c characters /\ is_alphanumeric c = true)
               (list_ascii_of_string s))
  /\ (characters = list_ascii_of_string ascii_lowercase
                   ++ list_ascii_of_string ascii_uppercase
                   ++ list_ascii_of_string digits
      /\ String.length ascii_lowercase = 26%nat
      /\ String.length ascii_uppercase = 26%nat
      /\ String.length digits = 10%nat
      /\ List.length characters = 62%nat
      /\ NoDup characters)
  /\ (forall (i : nat) (c : ascii), (i < 6)%nat -> In c characters ->
        (62 * List.length (filter (has_char_at i c) generate_short_code))%nat
        = List.length generate_short_code)
  /\ (forall s, String.length s = 6%nat ->
        Forall (fun c => In c characters) (list_ascii_of_string s) ->
        count_occ string_dec generate_short_code s = 1%nat)
  /\ Z.of_nat (List.length generate_short_code) = (62 ^ 6)%Z.
Proof.
  unfold generate_short_code. split; [|split; [|split; [|split]]].
  - intros s Hs. apply join_choices_In in Hs. destruct Hs as [Hlen Hall].
    split; [assumption|]. rewrite Forall_forall in *. intros c Hc.
    split; [now apply Hall|].
    pose proof characters_alphanumeric as Ha. rewrite Forall_forall in Ha.
    apply Ha. now apply Hall.
  - repeat split. apply characters_NoDup.
  - intros i c Hi Hc. change 62%nat with (List.length characters).
    apply position_count; [apply characters_NoDup | assumption | assumption].
  - intros s Hlen Hall. apply NoDup_count_occ'.
    + apply join_choices_NoDup, characters_NoDup.
    + apply join_choices_In. now split.
  - rewrite join_choices_length, Nat2Z.inj_pow.
    change (List.length characters) with 62%nat. reflexivity.
Qed.

(* ------------------------------------------------------------------ *)
(** ** The listing with click counts *)

Section Grouping.

Variable cs : list click.

Let add := fun groups r => add_to_group r groups.

Lemma left_join_cons (l : link) (ls : list link) :
  left_join (l :: ls) cs
  = map (pair l) (joined_clicks cs l) ++ left_join ls cs.
Proof.
  unfold left_join, joined_clicks. cbn [flat_map]. f_equal.
  destruct (filter _ cs) as [|c m]; [reflexivity|].
  now rewrite map_map.
Qed.

Lemma joined_clicks_nonempty (l : link) :
  exists c rest, joined_clicks cs l = c :: rest.
Proof.
  unfold joined_clicks. destruct (filter _ cs) as [|c m]; cbn; eauto.
Qed.

Lemma add_to_group_new (r : link * option click) groups :
  (forall g, In g groups -> link_id (fst g) <> link_id (fst r)) ->
  add_to_group r groups = groups ++ [(fst r, [snd r])].
Proof.
  induction groups as [|[l acc] groups IH]; intros Hnew; [reflexivity|].
  cbn [add_to_group app].
  destruct (Z.eqb_spec (link_id l) (link_id (fst r))) as [Heq|_].
  - elim (Hnew (l, acc) (or_introl eq_refl) Heq).
  - f_equal. apply IH. intros g Hg. apply Hnew. now right.
Qed.

Lemma add_to_group_last (l : link) (c : option click) acc groups :
  (forall g, In g groups -> link_id (fst g) <> link_id l) ->
  add_to_group (l, c) (groups ++ [(l, acc)]) = groups ++ [(l, acc ++ [c])].
Proof.
  induction groups as [|[l' acc'] groups IH]; intros Hnew; cbn [add_to_group app fst snd].
  - now rewrite Z.eqb_refl.
  - destruct (Z.eqb_spec (link_id l') (link_id l)) as [Heq|_].
    + elim (Hnew (l', acc') (or_introl eq_refl) Heq).
    + f_equal. apply IH. intros g Hg. apply Hnew. now right.
Qed.

Lemma fold_add_same_link (l : link) (rows acc : list (option click)) groups :
  (forall g, In g groups -> link_id (fst g) <> link_id l) ->
  fold_left add (map (pair l) rows) (groups ++ [(l, acc)])
  = groups ++ [(l, acc ++ rows)].
Proof.
  intros Hnew. revert acc. induction rows as [|c rows IH]; intros acc.
  - cbn. now rewrite app_nil_r.
  - cbn [map fold_left]. unfold add at 2.
    rewrite add_to_group_last by assumption.
    rewrite IH, <- app_assoc. reflexivity.
Qed.

Lemma fold_add_link (l : link) groups :
  (forall g, In g groups -> link_id (fst g) <> link_id l) ->
  fold_left add (map (pair l) (joined_clicks cs l)) groups
  = groups ++ [(l, joined_clicks cs l)].
Proof.
  intros Hnew. destruct (joined_clicks_nonempty l) as (c & rest & ->).
  cbn [map fold_left]. unfold add at 2.
  rewrite add_to_group_new by assumption. cbn [fst snd].
  now rewrite fold_add_same_link.
Qed.

Lemma fold_add_links (ls : list link) groups :
  NoDup (map (fun g => link_id (fst g)) groups ++ map link_id ls) ->
  fold_left add (left_join ls cs) groups
  = groups ++ map (fun l => (l, joined_clicks cs l)) ls.
Proof.
  revert groups. induction ls as [|l ls IH]; intros groups Hnd.
  - cbn. now rewrite app_nil_r.
  - rewrite left_join_cons, fold_left_app, fold_add_link.
    + rewrite IH.
      * rewrite <- app_assoc. reflexivity.
      * rewrite map_app. cbn [map fst]. rewrite <- app_assoc. exact Hnd.
    + intros g Hg Heq. apply NoDup_remove_2 in Hnd. apply Hnd.
      apply in_or_app. left. rewrite <- Heq.
      apply (in_map (fun g => link_id (fst g))). exact Hg.
Qed.

Lemma group_by_id_left_join (ls : list link) :
  NoDup (map link_id ls) ->
  group_by_id (left_join ls cs) = map (fun l => (l, joined_clicks cs l)) ls.
Proof.
  intros Hnd. exact (fold_add_links ls [] Hnd).
Qed.

End Grouping.

Lemma count_non_null_joined (db : database) (l : link) :
  count_non_null (joined_clicks (clicks db) l) = click_count db l.
Proof.
  unfold count_non_null, joined_clicks, click_count. f_equal.
  rewrite (filter_ext (fun c => String.eqb (click_short_code c) (short_code l))
                      (fun c => String.eqb (short_code l) (click_short_code c)))
    by (intros c; apply String.eqb_sym).
  destruct (filter _ (clicks db)) as [|c m]; [reflexivity|].
  rewrite filter_all, length_map; [reflexivity|].
  intros x Hx. apply in_map_iff in Hx. now destruct Hx as (y & <- & _).
Qed.

Lemma click_count_zero (db : database) (l : link) :
  (forall c, In c (clicks db) -> click_short_code c <> short_code l) ->
  click_count db l = 0%Z.
Proof.
  intros Hnone. unfold click_count. rewrite filter_none; [reflexivity|].
  intros c Hc. apply String.eqb_neq. now apply Hnone.
Qed.

Section OrderBy.

Lemma ltb_leb (a b : string) : String.ltb a b = true -> String.leb a b = true.
Proof. unfold String.ltb, String.leb. destruct (String.compare a b); auto. Qed.

Lemma not_ltb_leb (a b : string) : String.ltb a b = false -> String.leb b a = true.
Proof.
  unfold String.ltb, String.leb. rewrite (String.compare_antisym b a).
  destruct (String.compare a b); cbn; intros H; try reflexivity; discriminate H.
Qed.

Lemma insert_desc_perm (r : link * Z) (rows : list (link * Z)) :
  Permutation (insert_desc r rows) (r :: rows).
Proof.
  induction rows as [|x rows IH]; cbn [insert_desc]; [reflexivity|].
  destruct (String.ltb _ _); [|reflexivity].
  rewrite IH. apply perm_swap.
Qed.

Lemma insert_desc_hd (a r : link * Z) (rows : list (link * Z)) :
  created_at_desc a r -> HdRel created_at_desc a rows ->
  HdRel created_at_desc a (insert_desc r rows).
Proof.
  intros Har Hhd. destruct rows as [|x rows]; cbn [insert_desc].
  - now constructor.
  - destruct (String.ltb _ _); constructor; [|assumption].
    now inversion Hhd.
Qed.

Lemma insert_desc_sorted (r : link * Z) (rows : list (link * Z)) :
  Sorted created_at_desc rows -> Sorted created_at_desc (insert_desc r rows).
Proof.
  induction 1 as [|x rows Hs IH Hhd]; cbn [insert_desc].
  - repeat constructor.
  - destruct (String.ltb (created_at (fst r)) (created_at (fst x))) eqn:E.
    + constructor; [assumption|]. apply insert_desc_hd; [|assumption].
      now apply ltb_leb.
    + constructor; [now constructor|]. constructor. now apply not_ltb_leb.
Qed.

Lemma order_by_perm (rows : list (link * Z)) :
  Permutation (order_by_created_at_desc rows) rows.
Proof.
  induction rows as [|r rows IH]; cbn; [reflexivity|].
  now rewrite insert_desc_perm, IH.
Qed.

Lemma order_by_sorted (rows : list (link * Z)) :
  Sorted created_at_desc (order_by_created_at_desc rows).
Proof.
  induction rows as [|r rows IH]; cbn; [constructor|].
  now apply insert_desc_sorted.
Qed.

Lemma ascii_compare_trans (a b c : ascii) :
  Ascii.compare a b <> Gt -> Ascii.compare b c <> Gt -> Ascii.compare a c <> Gt.
Proof.
  unfold Ascii.compare. rewrite !N.compare_gt_iff. lia.
Qed.

Lemma ascii_compare_eq (a b : ascii) : Ascii.compare a b = Eq -> a = b.
Proof. apply Ascii.compare_eq_iff. Qed.

Lemma compare_not_gt_trans (a b c : string) :
  String.compare a b <> Gt -> String.compare b c <> Gt -> String.compare a c <> Gt.
Proof.
  revert b c. induction a as [|x a IH]; intros [|y b] [|z c]; cbn;
    try congruence.
  destruct (Ascii.compare x y) eqn:Exy; try congruence;
    destruct (Ascii.compare y z) eqn:Eyz; try congruence.
  - apply ascii_compare_eq in Exy, Eyz. subst.
    assert (Hz : Ascii.compare z z = Eq) by (unfold Ascii.compare; apply N.compare_refl).
    rewrite Hz. apply IH.
  - apply ascii_compare_eq in Exy. subst. rewrite Eyz. congruence.
  - apply ascii_compare_eq in Eyz. subst. rewrite Exy. congruence.
  - intros _ _. assert (H : Ascii.compare x z = Lt).
    { unfold Ascii.compare in *. rewrite N.compare_lt_iff in *. lia. }
    rewrite H. congruence.
Qed.

Lemma leb_not_gt (a b : string) : String.leb a b = true <-> String.compare a b <> Gt.
Proof.
  unfold String.leb. destruct (String.compare a b); split; congruence.
Qed.

Lemma created_at_desc_trans (a b c : link * Z) :
  created_at_desc a b -> created_at_desc b c -> created_at_desc a c.
Proof.
  unfold created_at_desc. rewrite !leb_not_gt. intros Hab Hbc.
  now apply (compare_not_gt_trans _ (created_at (fst b))).
Qed.

Lemma order_by_strongly_sorted (rows : list (link * Z)) :
  StronglySorted created_at_desc (order_by_created_at_desc rows).
Proof.
  apply Sorted_StronglySorted; [|apply order_by_sorted].
  intros a b c. apply created_at_desc_trans.
Qed.

(** On the texts that CURRENT_TIMESTAMP writes, descending text order is
    newest first. *)
Lemma created_at_desc_newest_first (a b : link * Z) (ta tb : datetime) :
  valid_datetime ta = true -> valid_datetime tb = true ->
  created_at (fst a) = sqlite_datetime ta ->
  created_at (fst b) = sqlite_datetime tb ->
  created_at_desc a b ->
  tuple_compare (second_key ta) (second_key tb) <> Lt.
Proof.
  intros Hta Htb Ha Hb. unfold created_at_desc. rewrite leb_not_gt, Ha, Hb.
  rewrite (sqlite_datetime_compare tb ta Htb Hta).
  rewrite (tuple_compare_antisym (second_key ta) (second_key tb)).
  destruct (tuple_compare (second_key ta) (second_key tb)); cbn; congruence.
Qed.

End OrderBy.

Lemma all_links_eq (db : database) :
  unique_ids db ->
  all_links db = order_by_created_at_desc (list_all_with_click_counts_spec db).
Proof.
  intros Hu. unfold all_links, list_all_with_click_counts_spec.
  cbn [working connect]. rewrite group_by_id_left_join by exact Hu.
  rewrite map_map. f_equal. apply map_ext. intros l.
  now rewrite count_non_null_joined.
Qed.

(** C7. The listing has one entry per link of the table: it is a
    rearrangement of the links, each paired with the number of click rows
    whose code is the link's code, which is zero for a link with no such
    click row; and the entries are in descending order of [created_at],
    which for the timestamps that the table's default writes means that no
    entry is older than an entry listed before it. *)
Theorem all_links_counts_newest_first :
  forall db : database,
    unique_ids db ->
    Permutation (all_links db) (list_all_with_click_counts_spec db)
    /\ Permutation (map fst (all_links db)) (links db)
    /\ StronglySorted created_at_desc (all_links db)
    /\ (forall l n, In (l, n) (all_links db) ->
          In l (links db)
          /\ n = click_count db l
          /\ ((forall c, In c (clicks db) -> click_short_code c <> short_code l) ->
              n = 0%Z))
    /\ (forall a b ta tb,
          created_at_desc a b ->
          valid_datetime ta = true -> valid_datetime tb = true ->
          created_at (fst a) = sqlite_datetime ta ->
          created_at (fst b) = sqlite_datetime tb ->
          tuple_compare (second_key ta) (second_key tb) <> Lt).
Proof.
  intros db Hu. rewrite (all_links_eq db Hu).
  pose proof (order_by_perm (list_all_with_click_counts_spec db)) as Hperm.
  split; [exact Hperm|]. split; [|split; [|split]].
  - rewrite Hperm. unfold list_all_with_click_counts_spec.
    rewrite map_map. cbn [fst]. now rewrite map_id.
  - apply order_by_strongly_sorted.
  - intros l n Hin. apply (Permutation_in _ Hperm) in Hin.
    unfold list_all_with_click_counts_spec in Hin. apply in_map_iff in Hin.
    destruct Hin as (l' & [= -> <-] & Hl).
    split; [assumption|]. split; [reflexivity|]. apply click_count_zero.
  - intros a b ta tb Hab Hta Htb Ha Hb.
    now apply (created_at_desc_newest_first a b ta tb).
Qed.
(* ------------------------------------------------------------------ *)
(** ** The scheduler in the life of the process *)

Lemma run_snoc (p : process) (inputs : list input) (i : input) :
  run p (inputs ++ [i]) = step (run p inputs) i.
Proof. unfold run. now rewrite fold_left_app. Qed.

Lemma main_events_app (l1 l2 : list event) :
  main_events (l1 ++ l2) = main_events l1 ++ main_events l2.
Proof. apply filter_app. Qed.

Lemma sweeps_app (l1 l2 : list event) :
  sweeps (l1 ++ l2) = (sweeps l1 + sweeps l2)%nat.
Proof.
  induction l1 as [|e l1 IH]; [reflexivity|].
  destruct e; cbn [app sweeps]; now rewrite IH.
Qed.

Lemma run_jobs_fields (t : datetime) (js : list job) (p : process) :
  todo (fold_left (run_job t) js p) = todo p
  /\ sched (fold_left (run_job t) js p) = sched p
  /\ main_events (log (fold_left (run_job t) js p)) = main_events (log p)
  /\ sweeps (log (fold_left (run_job t) js p))
     = (sweeps (log p) + List.length js)%nat.
Proof.
  revert p. induction js as [|j js IH]; intros p; cbn [fold_left List.length].
  - repeat split. lia.
  - destruct (IH (run_job t p j)) as (Ht & Hs & Hm & Hw).
    rewrite Ht, Hs, Hm, Hw. cbn [run_job todo sched log].
    rewrite main_events_app, sweeps_app. cbn. rewrite app_nil_r.
    repeat split. lia.
Qed.

(** The number of statements the main thread has run. *)
Lemma main_steps_snoc (inputs : list input) (i : input) :
  main_steps (inputs ++ [i])
  = (main_steps inputs + match i with MainStep => 1 | HourElapsed _ => 0 end)%nat.
Proof.
  unfold main_steps. rewrite filter_app, length_app. now destruct i.
Qed.

(** An hour that goes by between [scheduler.start()] and
    [scheduler.shutdown()] runs the sweep once; any other changes
    nothing. *)
Lemma step_hour_at (k : nat) (p : process) (t : datetime) :
  (k <= 6)%nat -> at_statement k p ->
  step p (HourElapsed t)
  = if ((3 <=? k) && (k <? 6))%nat
    then {| todo := todo p; sched := sched p;
            store := option_map (delete_expired_links t) (store p);
            log := log p ++ [Swept t (table_exists (store p))] |}
    else p.
Proof.
  intros Hk (Ht & Hs & Hm). destruct p as [td sc st lg].
  cbn [todo sched log store] in *. rewrite Hs.
  do 7 (destruct k as [|k]; [reflexivity|]). lia.
Qed.

Lemma step_timer_at (k : nat) (p : process) (t : datetime) :
  (k <= 6)%nat -> at_statement k p -> at_statement k (step p (HourElapsed t)).
Proof.
  intros Hk Hat. rewrite (step_hour_at k p t Hk Hat).
  destruct ((3 <=? k) && (k <? 6))%nat; [|exact Hat].
  destruct Hat as (Ht & Hs & Hm). unfold at_statement. cbn [todo sched log].
  rewrite main_events_app. cbn. now rewrite app_nil_r.
Qed.

Lemma step_main_at (k : nat) (p : process) :
  (k <= 6)%nat -> at_statement k p ->
  at_statement (Nat.min 6 (S k)) (step p MainStep)
  /\ sweeps (log (step p MainStep)) = sweeps (log p).
Proof.
  intros Hk (Ht & Hs & Hm). unfold at_statement. cbn [step]. rewrite Ht.
  do 7 (destruct k as [|k];
        [cbn in *; rewrite ?main_events_app, ?sweeps_app, ?Hs, ?Hm; cbn;
         repeat split; try assumption; lia|]).
  lia.
Qed.

Lemma run_at_statement (store0 : option database) (inputs : list input) :
  at_statement (Nat.min 6 (main_steps inputs)) (run (boot true store0) inputs).
Proof.
  induction inputs as [|i inputs IH] using rev_ind.
  - now repeat split.
  - rewrite run_snoc, main_steps_snoc. destruct i as [|t].
    + replace (Nat.min 6 (main_steps inputs + 1))
        with (Nat.min 6 (S (Nat.min 6 (main_steps inputs)))) by lia.
      apply step_main_at; [lia | exact IH].
    + rewrite Nat.add_0_r. apply step_timer_at; [lia | exact IH].
Qed.

(** The sweeps of a run are the hours that went by between the start of
    the scheduler and its shutdown. *)
Lemma sweeps_of_run (k : nat) (p : process) (inputs : list input) :
  at_statement (Nat.min 6 k) p ->
  sweeps (log (run p inputs))
  = (sweeps (log p) + hours_between_start_and_shutdown k inputs)%nat.
Proof.
  revert k p. induction inputs as [|i inputs IH]; intros k p Hat.
  - cbn. lia.
  - change (run p (i :: inputs)) with (run (step p i) inputs).
    destruct i as [|t]; cbn [hours_between_start_and_shutdown].
    + destruct (step_main_at (Nat.min 6 k) p) as (Hat' & Hsw); [lia | exact Hat |].
      replace (Nat.min 6 (S (Nat.min 6 k))) with (Nat.min 6 (S k)) in Hat' by lia.
      now rewrite (IH (S k) _ Hat'), Hsw.
    + rewrite (IH k (step p (HourElapsed t))).
      * rewrite (step_hour_at (Nat.min 6 k) p t) by (lia || exact Hat).
        assert (Hsame : ((3 <=? Nat.min 6 k) && (Nat.min 6 k <? 6))%nat
                        = ((3 <=? k) && (k <? 6))%nat).
        { destruct (Nat.leb_spec 3 k), (Nat.leb_spec 3 (Nat.min 6 k)),
            (Nat.ltb_spec k 6), (Nat.ltb_spec (Nat.min 6 k) 6);
            try reflexivity; lia. }
        rewrite Hsame. destruct ((3 <=? k) && (k <? 6))%nat; cbn [log].
        -- rewrite sweeps_app. cbn. lia.
        -- lia.
      * apply step_timer_at; [lia | exact Hat].
Qed.

Lemma in_main_events (e : event) (l : list event) :
  is_main_event e = true -> In e l <-> In e (main_events l).
Proof.
  intros He. unfold main_events. rewrite filter_In. tauto.
Qed.

Lemma started_after_initialized_main (b : bool) (l : list event) :
  started_after_initialized b l = started_after_initialized b (main_events l).
Proof.
  revert b. induction l as [|e l IH]; intros b; [reflexivity|].
  destruct e; cbn; now rewrite ?IH.
Qed.

Lemma stopped_is_final (p : process) (more : list input) :
  at_statement 6 p -> run p more = p.
Proof.
  intros Hat. induction more as [|i more IH] using rev_ind; [reflexivity|].
  rewrite run_snoc, IH. destruct i as [|t].
  - destruct Hat as (Ht & _). cbn [step]. now rewrite Ht.
  - now rewrite (step_hour_at 6 p t) by (lia || exact Hat).
Qed.

(** C8, as the code has it.  In every run of the script: the scheduler is
    started by the third statement of the module, the store is initialised
    by the fourth statement, which is the first of the main block, and the
    scheduler is shut down by the sixth; from its start to its shutdown
    the scheduler is running with the sweep as its only job, due every
    hour, and every hour that goes by runs [delete_expired_links] once, so
    that the sweeps of the run are the hours between start and shutdown;
    whenever the store was initialised the scheduler had been started
    before; and once the scheduler was shut down no input changes the
    process any more, so that no further sweep runs. *)
Theorem sweep_job_in_process_lifetime :
  forall (store0 : option database) (inputs : list input),
    let p := run (boot true store0) inputs in
    ((In SchedulerStarted (log p) <-> (3 <= main_steps inputs)%nat)
     /\ (In StoreInitialized (log p) <-> (4 <= main_steps inputs)%nat)
     /\ (In SchedulerStopped (log p) <-> (6 <= main_steps inputs)%nat))
    /\ (In SchedulerStarted (log p) -> ~ In SchedulerStopped (log p) ->
        running (sched p) = true
        /\ jobs (sched p) = [mkJob 1 1]
        /\ forall t,
             log (step p (HourElapsed t))
             = log p ++ [Swept t (table_exists (store p))]
             /\ store (step p (HourElapsed t))
                = option_map (delete_expired_links t) (store p)
             /\ sched (step p (HourElapsed t)) = sched p)
    /\ sweeps (log p) = hours_between_start_and_shutdown 0 inputs
    /\ (In StoreInitialized (log p) ->
          In SchedulerStarted (log p)
          /\ started_after_initialized false (log p) = false)
    /\ (In SchedulerStopped (log p) ->
          running (sched p) = false
          /\ forall more, run p more = p).
Proof.
  intros store0 inputs p.
  pose proof (run_at_statement store0 inputs) as Hat. fold p in Hat.
  set (n := main_steps inputs) in *.
  assert (Hk : (Nat.min 6 n <= 6)%nat) by lia.
  destruct Hat as (Ht & Hs & Hm).
  assert (Hline :
    (In SchedulerStarted (log p) <-> (3 <= n)%nat)
    /\ (In StoreInitialized (log p) <-> (4 <= n)%nat)
    /\ (In SchedulerStopped (log p) <-> (6 <= n)%nat)).
  { rewrite (in_main_events SchedulerStarted (log p) eq_refl),
      (in_main_events StoreInitialized (log p) eq_refl),
      (in_main_events SchedulerStopped (log p) eq_refl), Hm.
    destruct n as [|[|[|[|[|[|n]]]]]]; cbn;
      repeat split; intros H; try lia; try tauto;
      repeat (destruct H as [H|H]; try discriminate H; try contradiction). }
  destruct Hline as (Hstart & Hinit & Hstop).
  split; [exact (conj Hstart (conj Hinit Hstop))|]. split; [|split; [|split]].
  - intros H3 H6. apply Hstart in H3.
    assert (H6' : (n < 6)%nat).
    { destruct (Nat.lt_ge_cases n 6) as [Hlt|Hge]; [exact Hlt|].
      now apply Hstop in Hge. }
    assert (Hsched : sched p = {| jobs := [mkJob 1 1]; running := true |}).
    { rewrite Hs. destruct n as [|[|[|[|[|[|n]]]]]]; try lia; reflexivity. }
    rewrite Hsched. split; [reflexivity|]. split; [reflexivity|].
    intros t.
    rewrite (step_hour_at (Nat.min 6 n) p t Hk (conj Ht (conj Hs Hm))).
    replace ((3 <=? Nat.min 6 n) && (Nat.min 6 n <? 6))%nat with true.
    + cbn [log store sched]. now rewrite Hsched.
    + symmetry. apply andb_true_iff. split;
        [apply Nat.leb_le | apply Nat.ltb_lt]; lia.
  - unfold p. rewrite (sweeps_of_run 0 (boot true store0) inputs); [reflexivity|].
    now repeat split.
  - intros H4. apply Hinit in H4. split; [apply Hstart; lia|].
    rewrite started_after_initialized_main, Hm.
    destruct n as [|[|[|[|[|[|n]]]]]]; try lia; reflexivity.
  - intros H6. apply Hstop in H6.
    assert (Hat6 : at_statement 6 p).
    { replace 6%nat with (Nat.min 6 n) by lia. now repeat split. }
    split.
    + rewrite Hs. replace (Nat.min 6 n) with 6%nat by lia. reflexivity.
    + intros more. now apply stopped_is_final.
Qed.

(** C8, the order the claim asks for, on the script itself: four
    statements of the main thread start the scheduler and only then
    initialise the store. *)
Lemma scheduler_started_before_store_initialized :
  log (run (boot true None) [MainStep; MainStep; MainStep; MainStep])
  = [SchedulerStarted; StoreInitialized]
  /\ started_after_initialized false
       (log (run (boot true None) [MainStep; MainStep; MainStep; MainStep]))
     = false.
Proof. split; reflexivity. Qed.

(** A sweep that becomes due between the start of the scheduler and
    [init_db()] runs on a database file without tables, where it fails. *)
Example sweep_before_init_db :
  log (run (boot true None)
         [MainStep; MainStep; MainStep; HourElapsed Sample.noon; MainStep])
  = [SchedulerStarted; Swept Sample.noon false; StoreInitialized].
Proof. reflexivity. Qed.

(** The interval of a job is what its trigger counts down from: a job
    added with [hours=2] runs every second hour. *)
Example two_hour_job_runs_every_second_hour :
  let p := {| todo := []; sched := start (add_job 2 BackgroundScheduler);
              store := Some empty_database; log := [] |} in
  map (fun n => sweeps (log (run p (repeat (HourElapsed Sample.noon) n))))
      [0; 1; 2; 3; 4; 5]%nat
  = [0; 0; 1; 1; 2; 2]%nat.
Proof. reflexivity. Qed.

(* ------------------------------------------------------------------ *)
(** ** The properties at the sample data *)

Lemma sample_unique_codes : unique_codes Sample.db.
Proof.
  unfold unique_codes. simpl. repeat constructor; simpl; intuition discriminate.
Qed.

Lemma sample_unique_ids : unique_ids Sample.db.
Proof.
  unfold unique_ids. simpl. repeat constructor; simpl; intuition discriminate.
Qed.

Example sample_all_links :
  all_links Sample.db
  = [(Sample.tomorrow, 0%Z); (Sample.morning, 2%Z); (Sample.blank, 0%Z);
     (Sample.null_expiry, 0%Z)].
Proof. reflexivity. Qed.

Example sample_sweep :
  links (delete_expired_links Sample.noon Sample.db)
  = [Sample.morning; Sample.tomorrow; Sample.null_expiry].
Proof. reflexivity. Qed.

Example sample_sweep_next_day :
  links (delete_expired_links (mkDatetime 2024 1 2 0 0 0 0) Sample.db)
  = [Sample.tomorrow; Sample.null_expiry].
Proof. reflexivity. Qed.

Example sample_redirect_unknown :
  redirect_to_original Sample.clk (Sample.get "nosuch") Sample.db
  = ({| links := links Sample.db;
        clicks := clicks Sample.db
                  ++ [mkClick 4 "nosuch" "2024-01-01 12:00:00" (Some "127.0.0.1") "curl"];
        links_seq := 4; clicks_seq := 4 |},
     Ok (Page "error.html" [("message", "URL not found")] 404)).
Proof. reflexivity. Qed.

Example sample_redirect_malformed_expiry :
  let l := mkLink 1 "https://example.com" "Ab3dE9" (SqlText "tomorrow") "" in
  let db := mkDatabase [l] [] 1 0 in
  redirect_to_original Sample.clk (Sample.get "Ab3dE9") db
  = ({| links := [l];
        clicks := [mkClick 1 "Ab3dE9" "2024-01-01 12:00:00" (Some "127.0.0.1") "curl"];
        links_seq := 1; clicks_seq := 1 |},
     Raise ValueError).
Proof. reflexivity. Qed.

Example sample_store_link :
  store_link Sample.atof Sample.clk "http://localhost:5000/"
             "https://rocq-prover.org" "" "Zz9Zz9" Sample.db
  = ({| links := links Sample.db
                 ++ [mkLink 5 "https://rocq-prover.org" "Zz9Zz9" (SqlText "")
                            "2024-01-01 12:00:00"];
        clicks := clicks Sample.db; links_seq := 5; clicks_seq := 3 |},
     Ok (Page "index.html"
           [("short_url", "http://localhost:5000/Zz9Zz9");
            ("original_url", "https://rocq-prover.org")] 200)).
Proof. reflexivity. Qed.

Example number_literal_examples :
  number_literal " 12.50 " = Some (1250, -2)%Z
  /\ number_literal "-3e2" = Some (-3, 2)%Z
  /\ number_literal "1e-999" = Some (1, -999)%Z
  /\ number_literal "2024-01-01T10:00" = None
  /\ number_literal "" = None
  /\ number_literal "1e" = None
  /\ number_literal "." = None
  /\ number_literal "0x10" = None.
Proof. repeat split. Qed.

Example numeric_affinity_examples :
  forall atof : string -> number,
    numeric_affinity atof "2024-01-01T10:00" = SqlText "2024-01-01T10:00"
    /\ numeric_affinity atof "" = SqlText ""
    /\ numeric_affinity atof " 12.50 " = SqlNumber (atof " 12.50 ")
    /\ numeric_affinity atof "1e-999" = SqlNumber (atof "1e-999")
    /\ numeric_affinity atof "1e" = SqlText "1e".
Proof. intros atof. repeat split. Qed.

(** An expiry that SQLite converts to zero is stored as a number that is
    false in Python: the link is never expired for the handler. *)
Example zero_expiry_is_never_expired :
  forall (atof : string -> number) (now : datetime),
    atof "1e-999" = Integer 0 ->
    expired now (numeric_affinity atof "1e-999") = Ok false.
Proof.
  intros atof now H.
  change (numeric_affinity atof "1e-999") with (SqlNumber (atof "1e-999")).
  unfold expired. cbn [truthy]. now rewrite H.
Qed.

Example join_choices_two :
  join_choices 2 ["a"; "b"]%char = ["aa"; "ab"; "ba"; "bb"].
Proof. reflexivity. Qed.

Lemma sample_line_break_unique_codes : unique_codes Sample.line_break_db.
Proof. unfold unique_codes. simpl. repeat constructor; simpl; tauto. Qed.

Lemma sample_with_seconds_unique_codes : unique_codes Sample.with_seconds_db.
Proof. unfold unique_codes. simpl. repeat constructor; simpl; tauto. Qed.

Lemma redirect_to_original_cases_witness :
  unique_codes Sample.db
  /\ snd (redirect_to_original Sample.clk (Sample.get "nosuch") Sample.db)
     = Ok (Page "error.html" [("message", "URL not found")] 404)
  /\ snd (redirect_to_original Sample.clk (Sample.get "Qq12Zz") Sample.db)
     = Ok (RedirectTo "https://example.net")
  /\ snd (redirect_to_original Sample.clk (Sample.get "x7Yz01") Sample.db)
     = Ok (Page "error.html" [("message", "This URL has expired")] 410)
  /\ snd (redirect_to_original Sample.clk (Sample.get "Cr1fLf")
            Sample.line_break_db)
     = Raise ValueError
  /\ snd (redirect_to_original Sample.clk (Sample.get "Sec0nd")
            Sample.with_seconds_db)
     = Raise ValueError.
Proof.
  pose proof (redirect_to_original_cases Sample.clk (Sample.get "nosuch")
                Sample.db sample_unique_codes) as (_ & H404 & _).
  pose proof (redirect_to_original_cases Sample.clk (Sample.get "Qq12Zz")
                Sample.db sample_unique_codes) as (_ & _ & Hgo).
  pose proof (redirect_to_original_cases Sample.clk (Sample.get "x7Yz01")
                Sample.db sample_unique_codes) as (_ & _ & Hgone).
  pose proof (redirect_to_original_cases Sample.clk (Sample.get "Cr1fLf")
                Sample.line_break_db sample_line_break_unique_codes)
    as (_ & _ & Hbreak).
  pose proof (redirect_to_original_cases Sample.clk (Sample.get "Sec0nd")
                Sample.with_seconds_db sample_with_seconds_unique_codes)
    as (_ & _ & Hraise).
  split; [exact sample_unique_codes|]. split; [|split; [|split; [|split]]].
  - apply H404. simpl. intuition (subst; discriminate).
  - destruct (Hgo Sample.tomorrow) as (Hnot & _ & _ & _);
      [simpl; tauto | reflexivity |].
    apply Hnot; [|reflexivity].
    right. exists (mkDatetime 2024 1 2 10 0 0 0). split; reflexivity.
  - destruct (Hgone Sample.morning) as (_ & Hexp & _ & _);
      [simpl; tauto | reflexivity |].
    refine (proj1 (Hexp _)).
    exists (mkDatetime 2024 1 1 10 0 0 0). split; reflexivity.
  - destruct (Hbreak Sample.line_break) as (Hnot & _ & _ & _);
      [simpl; tauto | reflexivity |].
    apply Hnot; [|reflexivity]. left. reflexivity.
  - destruct (Hraise Sample.with_seconds) as (_ & _ & Hbad & _);
      [simpl; tauto | reflexivity |].
    apply Hbad; reflexivity.
Defined.

Lemma expired_iff_now_after_expiry_witness :
  expired Sample.noon (expiry_date Sample.null_expiry) = Ok false
  /\ expired Sample.noon (expiry_date Sample.morning) = Ok true
  /\ expired Sample.noon (expiry_date Sample.tomorrow) = Ok false.
Proof.
  split; [|split].
  - apply (proj1 (expired_iff_now_after_expiry Sample.noon Sample.null_expiry)).
    reflexivity.
  - apply (proj1 (proj2 (expired_iff_now_after_expiry Sample.noon Sample.morning))).
    exists (mkDatetime 2024 1 1 10 0 0 0). split; reflexivity.
  - apply (proj2 (proj2 (expired_iff_now_after_expiry Sample.noon Sample.tomorrow))
             (mkDatetime 2024 1 2 10 0 0 0)).
    reflexivity.
Defined.

Lemma redirect_records_one_click_witness :
  snd (redirect_to_original Sample.clk (Sample.get "nosuch") Sample.db)
  = Ok (Page "error.html" [("message", "URL not found")] 404).
Proof.
  apply (proj2 (redirect_records_one_click Sample.clk (Sample.get "nosuch") Sample.db)).
  simpl. intuition (subst; discriminate).
Defined.

Lemma duplicate_code_raises_witness :
  (exists l, In l (links Sample.db) /\ short_code l = "Ab3dE9")
  /\ store_link Sample.atof Sample.clk "http://localhost:5000/"
                "https://rocq-prover.org" "" "Ab3dE9" Sample.db
     = (Sample.db, Raise IntegrityError).
Proof.
  assert (H : exists l, In l (links Sample.db) /\ short_code l = "Ab3dE9").
  { exists Sample.blank. split; [simpl; tauto | reflexivity]. }
  split; [exact H|].
  exact (proj1 (duplicate_code_raises Sample.atof Sample.clk
                  "http://localhost:5000/" "https://rocq-prover.org" ""
                  "Ab3dE9" Sample.db H)).
Defined.

Lemma all_links_counts_newest_first_witness :
  unique_ids Sample.db
  /\ StronglySorted created_at_desc (all_links Sample.db)
  /\ (2 = click_count Sample.db Sample.morning)%Z.
Proof.
  pose proof (all_links_counts_newest_first Sample.db sample_unique_ids) as (_ & _ & Hs & Hc & _).
  split; [exact sample_unique_ids|]. split; [exact Hs|].
  apply (Hc Sample.morning 2%Z). simpl. tauto.
Defined.

Lemma sweep_job_in_process_lifetime_witness :
  running (sched (run (boot true None) [MainStep; MainStep; MainStep; MainStep]))
  = true
  /\ log (step (run (boot true None) [MainStep; MainStep; MainStep; MainStep])
               (HourElapsed Sample.noon))
     = [SchedulerStarted; StoreInitialized; Swept Sample.noon true]
  /\ sweeps (log (run (boot true None)
                    [MainStep; MainStep; HourElapsed Sample.noon; MainStep;
                     HourElapsed Sample.noon; MainStep; MainStep;
                     HourElapsed Sample.noon; MainStep;
                     HourElapsed Sample.noon]))
     = 2%nat.
Proof.
  pose proof (sweep_job_in_process_lifetime None
                [MainStep; MainStep; MainStep; MainStep]) as (_ & Hrun & _).
  destruct Hrun as (Hr & _ & Hsw);
    [simpl; tauto | simpl; intuition discriminate |].
  split; [exact Hr|]. split; [exact (proj1 (Hsw Sample.noon))|].
  exact (proj1 (proj2 (proj2 (sweep_job_in_process_lifetime None
                  [MainStep; MainStep; HourElapsed Sample.noon; MainStep;
                   HourElapsed Sample.noon; MainStep; MainStep;
                   HourElapsed Sample.noon; MainStep;
                   HourElapsed Sample.noon])))).
Defined.

(** The example of the specification: a link without expiry is created
    with code [Ab3dE9], one visit is redirected to the original URL, and the
    listing then shows one click. *)
Example create_visit_list :
  let created := fst (store_link Sample.atof Sample.clk "http://localhost:5000/"
                        "https://example.com" "" "Ab3dE9" empty_database) in
  let visited := redirect_to_original Sample.clk (Sample.get "Ab3dE9") created in
  snd visited = Ok (RedirectTo "https://example.com")
  /\ map (fun r => (short_code (fst r), snd r)) (all_links (fst visited))
     = [("Ab3dE9", 1%Z)].
Proof. split; reflexivity. Qed.

(* ================================================================== *)
(** * Further properties of the handlers *)

(* ------------------------------------------------------------------ *)
(** ** What the links table stores for a form value *)

Lemma digit_not_space (c : ascii) : is_digit c = true -> is_space c = false.
Proof.
  destruct c as [[] [] [] [] [] [] [] []]; intros H;
    try discriminate H; reflexivity.
Qed.

Lemma digit_no_sign (c : ascii) (r : string) :
  is_digit c = true -> take_sign (String c r) = (1%Z, String c r).
Proof.
  destruct c as [[] [] [] [] [] [] [] []]; intros H;
    try discriminate H; reflexivity.
Qed.

Lemma take_digits_digit (c : ascii) (r : string) :
  is_digit c = true ->
  take_digits (String c r)
  = (digit_val c :: fst (take_digits r), snd (take_digits r)).
Proof.
  intros H. cbn [take_digits]. rewrite H. now destruct (take_digits r).
Qed.

(** A text that starts with four digits and a dash is not a number. *)
Lemma number_literal_year_dash (a b c d : ascii) (rest : string) :
  is_digit a = true -> is_digit b = true -> is_digit c = true ->
  is_digit d = true ->
  number_literal (String a (String b (String c (String d (String "-" rest)))))
  = None.
Proof.
  intros Ha Hb Hc Hd. unfold number_literal. cbn [skip_spaces].
  rewrite (digit_not_space a Ha), (digit_no_sign a _ Ha).
  rewrite (take_digits_digit a _ Ha), (take_digits_digit b _ Hb),
    (take_digits_digit c _ Hc), (take_digits_digit d _ Hd).
  reflexivity.
Qed.

Lemma numeric_affinity_datetime_local (atof : string -> number) (t : datetime) :
  numeric_affinity atof (datetime_local t) = SqlText (datetime_local t).
Proof.
  unfold numeric_affinity.
  replace (number_literal (datetime_local t)) with (@None (Z * Z)); [reflexivity|].
  symmetry. unfold datetime_local, date_text, pad4, pad2. cbn [append].
  apply number_literal_year_dash; apply is_digit_digit_char.
Qed.

Lemma select_link_after_insert atof utc_now url code expiry db db' :
  (forall l, In l (links db) -> short_code l <> code) ->
  insert_link atof utc_now url code expiry db = Ok db' ->
  select_link code db' = [(url, numeric_affinity atof expiry)].
Proof.
  intros Hfresh Hins.
  destruct (insert_link_fresh atof utc_now url code expiry db Hfresh) as (id & Hid).
  rewrite Hid in Hins. injection Hins as <-.
  unfold select_link. cbn [links]. rewrite filter_app, map_app.
  rewrite filter_none.
  - cbn. now rewrite String.eqb_refl.
  - intros l Hl. apply String.eqb_neq. now apply Hfresh.
Qed.

Lemma store_link_fresh atof clk host url expiry code db :
  (forall l, In l (links db) -> short_code l <> code) ->
  exists id,
    store_link atof clk host url expiry code db
    = ({| links := links db ++ [mkLink id url code (numeric_affinity atof expiry)
                                       (sqlite_datetime (utc clk))];
          clicks := clicks db; links_seq := id; clicks_seq := clicks_seq db |},
       Ok (Page "index.html"
             [("short_url", (host ++ code)%string); ("original_url", url)] 200))
    /\ id = next_rowid (links_seq db) (map link_id (links db)).
Proof.
  intros Hfresh. unfold store_link. cbn [working connect].
  destruct (insert_link_fresh atof (utc clk) url code expiry db Hfresh) as (id & Hid).
  pose proof Hid as Hid'. unfold insert_link in Hid'.
  destruct (existsb _ _); [discriminate|]. injection Hid' as Hid'.
  rewrite Hid. exists id. split; [reflexivity | now symmetry].
Qed.

Lemma select_link_after_store atof clk host url expiry code db :
  (forall l, In l (links db) -> short_code l <> code) ->
  select_link code (fst (store_link atof clk host url expiry code db))
  = [(url, numeric_affinity atof expiry)].
Proof.
  intros Hfresh.
  destruct (store_link_fresh atof clk host url expiry code db Hfresh) as (id & -> & _).
  unfold select_link. cbn [fst links]. rewrite filter_app, map_app, filter_none.
  - cbn. now rewrite String.eqb_refl.
  - intros l Hl. apply String.eqb_neq. now apply Hfresh.
Qed.

(** X1. A link created with a fresh code and the form's text of a
    timestamp [e] is answered, on a visit at local time [now], with the 410
    page when [now] is after [e] taken to the minute, and otherwise with
    what [redirect] makes of the submitted URL: a redirect to it, or
    ValueError when it has a carriage return or a line feed in it. *)
Theorem create_then_visit :
  forall (atof : string -> number) (clk clk' : clock) (host url code : string)
         (e : datetime) (rq : redirect_request) (db : database),
    (forall l, In l (links db) -> short_code l <> code) ->
    valid_datetime e = true ->
    req_short_code rq = code ->
    snd (redirect_to_original clk' rq
           (fst (store_link atof clk host url (datetime_local e) code db)))
    = (if datetime_gt (localtime clk') (to_the_minute e)
       then Ok expired_page
       else if has_newline url then Raise ValueError
       else Ok (RedirectTo url)).
Proof.
  intros atof clk clk' host url code e rq db Hfresh Hv Hrq.
  rewrite redirect_response, Hrq, select_link_after_store by assumption.
  cbn [fetchone hd_error]. rewrite numeric_affinity_datetime_local.
  rewrite (expired_text_parsed _ _ _ (strptime_datetime_local e Hv)).
  unfold to_the_minute, expired_page, redirect.
  now destruct (datetime_gt _ _).
Qed.

Lemma create_then_visit_witness :
  snd (redirect_to_original Sample.clk (Sample.get "Zz9Zz9")
         (fst (store_link Sample.atof Sample.clk "http://localhost:5000/" "https://rocq-prover.org"
                 (datetime_local (mkDatetime 2024 1 1 11 59 0 0)) "Zz9Zz9" Sample.db)))
  = Ok expired_page.
Proof.
  apply (create_then_visit Sample.atof Sample.clk Sample.clk "http://localhost:5000/"
           "https://rocq-prover.org" "Zz9Zz9" (mkDatetime 2024 1 1 11 59 0 0)
           (Sample.get "Zz9Zz9") Sample.db).
  - simpl. intuition (subst; discriminate).
  - reflexivity.
  - reflexivity.
Defined.

(** The same link visited a minute before its expiry, and a link whose URL
    carries a line feed. *)
Example create_then_visit_examples :
  snd (redirect_to_original
         {| utc := Sample.noon; localtime := mkDatetime 2024 1 1 11 58 0 0 |}
         (Sample.get "Zz9Zz9")
         (fst (store_link Sample.atof Sample.clk "http://localhost:5000/"
                 "https://rocq-prover.org"
                 (datetime_local (mkDatetime 2024 1 1 11 59 0 0)) "Zz9Zz9"
                 Sample.db)))
  = Ok (RedirectTo "https://rocq-prover.org")
  /\ snd (redirect_to_original Sample.clk (Sample.get "Zz9Zz9")
            (fst (store_link Sample.atof Sample.clk "http://localhost:5000/"
                    ("https://rocq-prover.org/" ++ String "010" "")
                    (datetime_local (mkDatetime 2024 1 2 11 59 0 0)) "Zz9Zz9"
                    Sample.db)))
     = Raise ValueError.
Proof. split; reflexivity. Qed.

(** X2. A link created with a fresh code and the expiry field left blank
    is deleted by the next sweep, whenever it runs: a visit after the sweep
    gets the 404 page. *)
Theorem blank_link_is_gone_after_sweep :
  forall (atof : string -> number) (clk clk' : clock) (utc_now : datetime)
         (host url code : string) (rq : redirect_request) (db : database),
    (forall l, In l (links db) -> short_code l <> code) ->
    req_short_code rq = code ->
    snd (redirect_to_original clk' rq
           (delete_expired_links utc_now
              (fst (store_link atof clk host url "" code db))))
    = Ok not_found_page.
Proof.
  intros atof clk clk' utc_now host url code rq db Hfresh Hrq.
  rewrite redirect_response, Hrq.
  destruct (store_link_fresh atof clk host url "" code db Hfresh) as (id & -> & _).
  rewrite select_link_absent; [reflexivity|].
  intros l Hl. apply sweep_keeps_iff in Hl. destruct Hl as [Hin Hkeep].
  cbn [fst links] in Hin. apply in_app_or in Hin. destruct Hin as [Hin | [<- | []]].
  - now apply Hfresh.
  - exfalso. cbn [expiry_date] in Hkeep.
    change (numeric_affinity atof "") with (SqlText "") in Hkeep. cbn [sql_lt_text] in Hkeep.
    rewrite ltb_empty in Hkeep by apply sqlite_datetime_nonempty. discriminate Hkeep.
Qed.

Lemma blank_link_is_gone_after_sweep_witness :
  snd (redirect_to_original Sample.clk (Sample.get "Zz9Zz9")
         (delete_expired_links Sample.noon
            (fst (store_link Sample.atof Sample.clk "http://localhost:5000/"
                    "https://rocq-prover.org" "" "Zz9Zz9" Sample.db))))
  = Ok not_found_page.
Proof.
  apply (blank_link_is_gone_after_sweep Sample.atof Sample.clk Sample.clk Sample.noon
           "http://localhost:5000/" "https://rocq-prover.org" "Zz9Zz9"
           (Sample.get "Zz9Zz9") Sample.db).
  - simpl. intuition (subst; discriminate).
  - reflexivity.
Defined.

(* ------------------------------------------------------------------ *)
(** ** The expiry check over time and over malformed values *)

Lemma tuple_compare_gt_trans (a b c : list Z) :
  tuple_compare a b <> Lt -> tuple_compare b c = Gt -> tuple_compare a c = Gt.
Proof.
  revert b c. induction a as [|x a IH]; intros [|y b] [|z c]; cbn;
    try congruence.
  destruct (Z.compare_spec x y) as [Hxy|Hxy|Hxy];
    destruct (Z.compare_spec y z) as [Hyz|Hyz|Hyz];
    try congruence; intros H1 H2.
  - subst. rewrite Z.compare_refl. now apply (IH b c).
  - assert (H : (x ?= z)%Z = Gt) by (apply Z.compare_gt_iff; lia). now rewrite H.
  - assert (H : (x ?= z)%Z = Gt) by (apply Z.compare_gt_iff; lia). now rewrite H.
  - assert (H : (x ?= z)%Z = Gt) by (apply Z.compare_gt_iff; lia). now rewrite H.
Qed.

Lemma expired_raise_any_time (now now' : datetime) (v : sqlite_value) (e : exn) :
  expired now v = Raise e -> expired now' v = Raise e.
Proof.
  unfold expired. destruct (truthy v); [|discriminate].
  destruct v as [|x|s|b]; try (intros H; exact H).
  destruct (strptime s); cbn [bind]; [discriminate | intros H; exact H].
Qed.

(** X3. Time only moves a link towards expiry: once the check of the
    redirect handler reports a stored value as expired, it reports it as
    expired at every clock reading that is not earlier; and whether the
    check raises does not depend on the clock at all. *)
Theorem expired_stays_expired :
  forall (now now' : datetime) (v : sqlite_value),
    datetime_compare now' now <> Lt ->
    (expired now v = Ok true -> expired now' v = Ok true)
    /\ (forall e, expired now v = Raise e <-> expired now' v = Raise e).
Proof.
  intros now now' v Hlater. split.
  - intros H. apply expired_true_inv in H. destruct H as (t & Ht & Hgt).
    destruct v as [|x|s|b]; cbn [expiry_time] in Ht; try discriminate.
    destruct (strptime s) as [t'|] eqn:Hp; [|discriminate]. injection Ht as ->.
    rewrite (expired_text_parsed now' s t Hp). f_equal.
    unfold datetime_gt, datetime_compare in *.
    rewrite (tuple_compare_gt_trans (datetime_key now') (datetime_key now)
               (datetime_key t)); [reflexivity | exact Hlater |].
    destruct (tuple_compare (datetime_key now) (datetime_key t)); congruence.
  - intros e. split; apply expired_raise_any_time.
Qed.

Lemma expired_stays_expired_witness :
  expired (mkDatetime 2030 6 1 0 0 0 0) (expiry_date Sample.morning) = Ok true.
Proof.
  apply (proj1 (expired_stays_expired Sample.noon (mkDatetime 2030 6 1 0 0 0 0)
                  (expiry_date Sample.morning) ltac:(discriminate))).
  reflexivity.
Defined.

(** The pattern of [strptime] matches the form's text of a timestamp at
    the start of any text and leaves what follows. *)
Lemma format_matches_datetime_local (t : datetime) (suffix : string) :
  valid_datetime t = true ->
  exists others,
    format_matches (datetime_local t ++ suffix)
    = ((year t, month t, day t, hour t, minute t), suffix) :: others.
Proof.
  intros Hv. apply valid_datetime_ranges in Hv.
  destruct (re_M_pad2 (minute t) suffix) as (oM & HM); [lia|].
  destruct (re_H_pad2 (hour t) (String ":" (pad2 (minute t) ++ suffix)))
    as (oh & Hh); [lia|].
  destruct (re_d_pad2 (day t)
              (String "T" (pad2 (hour t) ++ String ":" (pad2 (minute t) ++ suffix))))
    as (od & Hd); [lia|].
  destruct (re_m_pad2 (month t)
              (String "-" (pad2 (day t) ++ String "T"
                 (pad2 (hour t) ++ String ":" (pad2 (minute t) ++ suffix)))))
    as (om & Hm); [lia|].
  unfold format_matches, datetime_local, date_text.
  rewrite !append_assoc. cbn [append].
  rewrite re_Y_pad4 by lia. cbn [and_then flat_map app].
  rewrite literal_same. cbn [and_then flat_map app].
  rewrite Hm. cbn [and_then flat_map app].
  rewrite literal_same. cbn [and_then flat_map app].
  rewrite Hd. cbn [and_then flat_map app].
  rewrite literal_same. cbn [and_then flat_map app].
  rewrite Hh. cbn [and_then flat_map app].
  rewrite literal_same. cbn [and_then flat_map app].
  rewrite HM. cbn [and_then flat_map app].
  eexists. reflexivity.
Qed.

Lemma strptime_trailing_text (t : datetime) (suffix : string) :
  valid_datetime t = true -> suffix <> "" ->
  strptime (datetime_local t ++ suffix) = Raise ValueError.
Proof.
  intros Hv Hs. unfold strptime.
  destruct (format_matches_datetime_local t suffix Hv) as (others & ->).
  destruct suffix; [congruence | reflexivity].
Qed.

Lemma append_nonempty (a b : string) : b <> "" -> (a ++ b)%string <> "".
Proof. destruct a; cbn; [tauto | discriminate]. Qed.

(** X4. A stored expiry that is the form's text of a timestamp followed
    by anything more, such as the seconds that a browser adds to a
    [datetime-local] value, makes every visit of the link raise ValueError,
    at every clock reading; the click is recorded all the same, and the
    links table is unchanged. *)
Theorem expiry_with_trailing_text_raises :
  forall (clk : clock) (rq : redirect_request) (db : database) (l : link)
         (t : datetime) (suffix : string),
    unique_codes db ->
    In l (links db) ->
    short_code l = req_short_code rq ->
    valid_datetime t = true ->
    suffix <> "" ->
    expiry_date l = SqlText (datetime_local t ++ suffix) ->
    snd (redirect_to_original clk rq db) = Raise ValueError
    /\ List.length (clicks (fst (redirect_to_original clk rq db)))
       = S (List.length (clicks db))
    /\ links (fst (redirect_to_original clk rq db)) = links db.
Proof.
  intros clk rq db l t suffix Hu Hin Hcode Hv Hs He. split; [|split].
  - rewrite redirect_response, <- Hcode, select_link_present by assumption.
    cbn [fetchone hd_error]. rewrite He. unfold expired. cbn [truthy].
    destruct (String.eqb_spec (datetime_local t ++ suffix) "") as [Hempty|_].
    + now apply append_nonempty in Hempty.
    + cbn [negb]. now rewrite strptime_trailing_text.
  - rewrite redirect_database. unfold insert_click. cbn [clicks].
    rewrite length_app. cbn. lia.
  - apply redirect_links_unchanged.
Qed.

Lemma expiry_with_trailing_text_raises_witness :
  let l := mkLink 1 "https://example.com" "Ab3dE9"
             (SqlText "2024-01-01T10:00:30") "2024-01-01 09:00:00" in
  snd (redirect_to_original Sample.clk (Sample.get "Ab3dE9")
         (mkDatabase [l] [] 1 0))
  = Raise ValueError.
Proof.
  intros l.
  apply (proj1 (expiry_with_trailing_text_raises Sample.clk (Sample.get "Ab3dE9")
                  (mkDatabase [l] [] 1 0) l (mkDatetime 2024 1 1 10 0 0 0) ":30"
                  ltac:(repeat constructor; simpl; tauto)
                  ltac:(simpl; tauto) eq_refl eq_refl
                  ltac:(discriminate) eq_refl)).
Defined.

(* ------------------------------------------------------------------ *)
(** ** The template filter *)

(** X5. The filter that prints an expiry and the check of the redirect
    handler read a stored value alike: a value that is false in Python
    (NULL, the empty text, zero) is printed as "Never" and is never expired;
    the filter raises exactly the exceptions the check raises; and a value
    that reads as a timestamp is printed as that timestamp under the given
    format. *)
Theorem datetimeformat_agrees_with_expiry_check :
  forall (strftime : datetime -> string -> string) (v : sqlite_value)
         (format : string) (now : datetime),
    (truthy v = false ->
       datetimeformat strftime v format = Ok "Never"
       /\ expired now v = Ok false)
    /\ (forall e, datetimeformat strftime v format = Raise e
                  <-> expired now v = Raise e)
    /\ (forall t, expiry_time v = Some t ->
                  datetimeformat strftime v format = Ok (strftime t format)).
Proof.
  intros strftime v format now. unfold datetimeformat, expired. split; [|split].
  - intros ->. split; reflexivity.
  - intros e. destruct (truthy v); cbn [negb]; [|split; discriminate].
    destruct v as [|x|s|b]; [split; congruence ..| |split; congruence].
    destruct (strptime s); cbn [bind]; split; congruence.
  - intros t Ht. destruct v as [|x|s|b]; cbn [expiry_time] in Ht;
      try discriminate.
    destruct (strptime s) as [t'|] eqn:Hp; [|discriminate]. injection Ht as ->.
    cbn [truthy]. destruct (String.eqb_spec s "") as [->|_]; [discriminate Hp|].
    cbn [negb bind]. reflexivity.
Qed.

Lemma datetimeformat_agrees_with_expiry_check_witness :
  datetimeformat (fun _ f => f) (SqlText "") default_format = Ok "Never".
Proof.
  apply (proj1 (datetimeformat_agrees_with_expiry_check (fun _ f => f)
                  (SqlText "") default_format Sample.noon)).
  reflexivity.
Defined.

(* ------------------------------------------------------------------ *)
(** ** Series of visits *)

Lemma visits_snoc rs r db :
  visits (rs ++ [r]) db
  = fst (redirect_to_original (fst r) (snd r) (visits rs db)).
Proof. unfold visits. now rewrite fold_left_app. Qed.

Lemma visits_links rs db : links (visits rs db) = links db.
Proof.
  induction rs as [|r rs IH] using rev_ind; [reflexivity|].
  now rewrite visits_snoc, redirect_links_unchanged.
Qed.

Lemma redirect_response_by_links clk rq db db' :
  links db' = links db ->
  snd (redirect_to_original clk rq db') = snd (redirect_to_original clk rq db).
Proof.
  intros H. rewrite !redirect_response. unfold select_link. now rewrite H.
Qed.

(** X6. Recording clicks never changes an answer: after any series of
    visits, to any codes at any times, a request gets the answer it would
    have got before them; the series leaves the links table as it was and
    adds one click row per visit. *)
Theorem visits_do_not_change_answers :
  forall (rs : list (clock * redirect_request)) (clk : clock)
         (rq : redirect_request) (db : database),
    snd (redirect_to_original clk rq (visits rs db))
    = snd (redirect_to_original clk rq db)
    /\ links (visits rs db) = links db
    /\ List.length (clicks (visits rs db))
       = (List.length (clicks db) + List.length rs)%nat.
Proof.
  intros rs clk rq db. split; [|split].
  - apply redirect_response_by_links, visits_links.
  - apply visits_links.
  - induction rs as [|r rs IH] using rev_ind; [cbn; lia|].
    rewrite visits_snoc, redirect_database. unfold insert_click. cbn [clicks].
    rewrite !length_app, IH. cbn. lia.
Qed.

(* ------------------------------------------------------------------ *)
(** ** The outcomes of [index] *)

Lemma is_generated_spec (code : string) :
  is_generated code = true <-> In code generate_short_code.
Proof.
  unfold is_generated, generate_short_code. rewrite join_choices_In.
  rewrite andb_true_iff, Nat.eqb_eq, forallb_forall, Forall_forall.
  split; intros [Hlen Hall]; (split; [assumption|]); intros c Hc.
  - specialize (Hall c Hc). apply existsb_exists in Hall.
    destruct Hall as (x & Hx & Heq). apply Ascii.eqb_eq in Heq. now subst.
  - apply existsb_exists. exists c. split; [now apply Hall | apply Ascii.eqb_refl].
Qed.

Lemma code_taken_iff (code : string) (db : database) :
  existsb (fun l => String.eqb (short_code l) code) (links db) = true
  <-> exists l, In l (links db) /\ short_code l = code.
Proof.
  rewrite existsb_exists. split; intros (l & Hin & H); exists l;
    (split; [assumption|]); now apply String.eqb_eq.
Qed.

Lemma store_link_cases atof clk host url expiry code db :
  (existsb (fun l => String.eqb (short_code l) code) (links db) = true
   /\ store_link atof clk host url expiry code db = (db, Raise IntegrityError))
  \/ (existsb (fun l => String.eqb (short_code l) code) (links db) = false
      /\ (forall l, In l (links db) -> short_code l <> code)
      /\ store_link atof clk host url expiry code db
         = ({| links := links db
                        ++ [mkLink (next_rowid (links_seq db) (map link_id (links db)))
                                   url code (numeric_affinity atof expiry)
                                   (sqlite_datetime (utc clk))];
               clicks := clicks db;
               links_seq := next_rowid (links_seq db) (map link_id (links db));
               clicks_seq := clicks_seq db |},
            Ok (Page "index.html"
                  [("short_url", (host ++ code)%string); ("original_url", url)] 200))).
Proof.
  destruct (existsb _ (links db)) eqn:E.
  - left. split; [reflexivity|]. unfold store_link. cbn [working connect].
    rewrite insert_link_duplicate; [reflexivity|]. now apply code_taken_iff.
  - right. split; [reflexivity|].
    assert (Hfresh : forall l, In l (links db) -> short_code l <> code).
    { intros l Hl Hc. assert (H : existsb (fun l => String.eqb (short_code l) code)
                                    (links db) = true).
      { apply code_taken_iff. now exists l. }
      congruence. }
    split; [exact Hfresh|].
    destruct (store_link_fresh atof clk host url expiry code db Hfresh) as (id & -> & ->).
    reflexivity.
Qed.

Lemma index_outcome_cases atof clk rq db db' r :
  In (db', r) (index atof clk rq db) ->
  (method rq = GET /\ db' = db /\ r = Ok (Page "index.html" [] 200))
  \/ (method rq = POST /\ db' = db /\ r = Raise BadRequestKeyError)
  \/ (method rq = POST /\ db' = db /\ r = Raise IntegrityError)
  \/ (method rq = POST
      /\ exists url expiry code,
          form_url rq = Some url
          /\ form_expiry_date rq = Some expiry
          /\ In code generate_short_code
          /\ (forall x, In x (links db) -> short_code x <> code)
          /\ db' = {| links := links db
                        ++ [mkLink (next_rowid (links_seq db) (map link_id (links db)))
                                   url code (numeric_affinity atof expiry)
                                   (sqlite_datetime (utc clk))];
                      clicks := clicks db;
                      links_seq := next_rowid (links_seq db) (map link_id (links db));
                      clicks_seq := clicks_seq db |}
          /\ r = Ok (Page "index.html"
                       [("short_url", (host_url rq ++ code)%string);
                        ("original_url", url)] 200)).
Proof.
  unfold index. intros Hin. destruct (method rq).
  - destruct Hin as [[= <- <-] | []]. left. repeat split.
  - right. destruct (form_url rq) as [url|]; cbn [form_field] in Hin;
      [|destruct Hin as [[= <- <-] | []]; left; repeat split].
    destruct (form_expiry_date rq) as [expiry|]; cbn [form_field] in Hin;
      [|destruct Hin as [[= <- <-] | []]; left; repeat split].
    right. apply in_map_iff in Hin. destruct Hin as (code & Hstore & Hcode).
    destruct (store_link_cases atof clk (host_url rq) url expiry code db)
      as [[_ Hdup] | (Hnone & Hfresh & Hok)].
    + rewrite Hdup in Hstore. injection Hstore as <- <-. left. repeat split.
    + rewrite Hok in Hstore. injection Hstore as <- <-. right.
      split; [reflexivity|]. exists url, expiry, code. repeat split; assumption.
Qed.

(** X7. Whatever [index] is asked and whatever code is drawn: the clicks
    table is untouched; an outcome that raises (BadRequestKeyError for a
    missing form field, IntegrityError for a taken code, nothing else)
    leaves the database as it was; an outcome that renders the page either
    changed nothing (GET) or appended exactly one link, which carries the
    submitted URL, what the column's NUMERIC affinity makes of the submitted
    expiry (the text itself, or SQLite's conversion of it when it reads as a
    number) and a code of the generator that no other link carries, and shows the host
    URL followed by that code; and the key constraints of the links table
    are kept. *)
Theorem index_outcomes :
  forall (atof : string -> number) (clk : clock) (rq : index_request)
         (db db' : database) (r : result response),
    In (db', r) (index atof clk rq db) ->
    clicks db' = clicks db
    /\ (forall e, r = Raise e ->
          db' = db /\ (e = BadRequestKeyError \/ e = IntegrityError))
    /\ (forall page, r = Ok page ->
          (method rq = GET /\ db' = db /\ page = Page "index.html" [] 200)
          \/ (method rq = POST
              /\ exists l,
                  links db' = links db ++ [l]
                  /\ form_url rq = Some (original_url l)
                  /\ option_map (numeric_affinity atof) (form_expiry_date rq)
                     = Some (expiry_date l)
                  /\ In (short_code l) generate_short_code
                  /\ (forall x, In x (links db) -> short_code x <> short_code l)
                  /\ page = Page "index.html"
                              [("short_url", (host_url rq ++ short_code l)%string);
                               ("original_url", original_url l)] 200))
    /\ (unique_codes db -> unique_codes db')
    /\ (unique_ids db -> unique_ids db').
Proof.
  intros atof clk rq db db' r Hin.
  destruct (index_outcome_cases atof clk rq db db' r Hin)
    as [(Hm & -> & ->) | [(Hm & -> & ->) | [(Hm & -> & ->) | (Hm & Hnew)]]].
  - repeat split; try tauto; try discriminate.
    intros page [= <-]. left. repeat split. exact Hm.
  - repeat split; try tauto; try discriminate; try congruence.
    injection H as <-. now left.
  - repeat split; try tauto; try discriminate; try congruence.
    injection H as <-. now right.
  - destruct Hnew as (url & expiry & code & Hurl & Hexp & Hcode & Hfresh & -> & ->).
    cbn [clicks links]. split; [reflexivity|]. split; [discriminate|].
    split; [|split].
    + intros page [= <-]. right. split; [exact Hm|]. eexists.
      split; [reflexivity|]. cbn [original_url expiry_date short_code].
      rewrite Hexp. repeat split; assumption.
    + intros Hu. unfold unique_codes. cbn [links]. rewrite map_app. cbn [map short_code].
      apply NoDup_app; [assumption | repeat constructor; simpl; tauto |].
      intros a Ha [Heq | []]. subst a. apply in_map_iff in Ha.
      destruct Ha as (x & Hx & Hxin). now apply (Hfresh x).
    + intros Hu. unfold unique_ids. cbn [links]. rewrite map_app. cbn [map link_id].
      apply NoDup_app; [assumption | repeat constructor; simpl; tauto |].
      intros a Ha [Heq | []]. subst a. now apply next_rowid_fresh in Ha.
Qed.

Lemma index_outcomes_witness :
  let rq := mkIndexRequest POST (Some "https://rocq-prover.org") (Some "")
              "http://localhost:5000/" in
  In (store_link Sample.atof Sample.clk "http://localhost:5000/" "https://rocq-prover.org" ""
        "Zz9Zz9" Sample.db)
     (index Sample.atof Sample.clk rq Sample.db)
  /\ clicks (fst (store_link Sample.atof Sample.clk "http://localhost:5000/"
                    "https://rocq-prover.org" "" "Zz9Zz9" Sample.db))
     = clicks Sample.db.
Proof.
  intros rq.
  assert (Hin : In (store_link Sample.atof Sample.clk "http://localhost:5000/"
                      "https://rocq-prover.org" "" "Zz9Zz9" Sample.db)
                   (index Sample.atof Sample.clk rq Sample.db)).
  { unfold index, rq. cbn [method form_url form_expiry_date form_field host_url].
    apply in_map_iff. exists "Zz9Zz9". split; [reflexivity|].
    apply is_generated_spec. reflexivity. }
  split; [exact Hin|].
  destruct (store_link Sample.atof Sample.clk "http://localhost:5000/"
              "https://rocq-prover.org" "" "Zz9Zz9" Sample.db) as [d r] eqn:E.
  exact (proj1 (index_outcomes Sample.atof Sample.clk rq Sample.db d r Hin)).
Defined.

(* ------------------------------------------------------------------ *)
(** ** How often creating a link fails *)

Lemma mem_In (xs : list string) (y : string) : mem xs y = true <-> In y xs.
Proof.
  unfold mem. rewrite existsb_exists. split.
  - intros (x & Hx & Heq). apply String.eqb_eq in Heq. now subst.
  - intros H. exists y. split; [assumption | apply String.eqb_refl].
Qed.

Lemma mem_false (xs : list string) (y : string) : ~ In y xs -> mem xs y = false.
Proof.
  intros H. destruct (mem xs y) eqn:E; [|reflexivity].
  apply mem_In in E. contradiction.
Qed.

Lemma filter_length_ext {A : Type} (f g : A -> bool) (l : list A) :
  (forall x, In x l -> f x = g x) ->
  List.length (filter f l) = List.length (filter g l).
Proof.
  intros H. f_equal. apply filter_ext_in. exact H.
Qed.

Lemma mem_cons (x : string) (l : list string) (y : string) :
  mem (x :: l) y = String.eqb y x || mem l y.
Proof. reflexivity. Qed.

Lemma count_with_one_more (a : string) (xs ys : list string) :
  NoDup ys -> ~ In a xs ->
  List.length (filter (mem (a :: xs)) ys)
  = ((if mem ys a then 1 else 0) + List.length (filter (mem xs) ys))%nat.
Proof.
  intros Hnd Ha. induction Hnd as [|b ys Hb Hnd IH]; [reflexivity|].
  cbn [filter]. rewrite !mem_cons.
  destruct (String.eqb_spec b a) as [->|Hne].
  - rewrite String.eqb_refl. cbn [orb List.length].
    rewrite (mem_false xs a Ha), IH, (mem_false ys a Hb). reflexivity.
  - assert (Hne' : String.eqb a b = false) by (apply String.eqb_neq; congruence).
    rewrite Hne'. cbn [orb].
    destruct (mem xs b); cbn [List.length]; rewrite IH; lia.
Qed.

(** Two lists without repetition have as many elements of the one in the
    other as of the other in the one. *)
Lemma common_count (xs ys : list string) :
  NoDup xs -> NoDup ys ->
  List.length (filter (mem ys) xs) = List.length (filter (mem xs) ys).
Proof.
  intros Hx Hy. induction Hx as [|a xs Ha Hx IH].
  - cbn. rewrite filter_none; [reflexivity|]. intros y _. reflexivity.
  - cbn [filter]. rewrite (count_with_one_more a xs ys Hy Ha), <- IH.
    destruct (mem ys a); cbn [List.length]; lia.
Qed.

Lemma filter_map_length {A B : Type} (p : B -> bool) (f : A -> B) (l : list A) :
  List.length (filter p (map f l)) = List.length (filter (fun a => p (f a)) l).
Proof. now rewrite filter_map_comm, length_map. Qed.

(** X8. Of the 62^6 equally likely outcomes of a POST with both fields,
    exactly as many raise IntegrityError as there are stored links whose
    code is a six-character alphanumeric string; all the others create the
    link. *)
Theorem index_collision_count :
  forall (atof : string -> number) (clk : clock) (host url expiry : string)
         (db : database),
    unique_codes db ->
    let outcomes_ :=
      index atof clk (mkIndexRequest POST (Some url) (Some expiry) host) db in
    List.length (filter (fun o => raises IntegrityError (snd o)) outcomes_)
    = List.length (filter (fun l => is_generated (short_code l)) (links db))
    /\ Z.of_nat (List.length outcomes_) = (62 ^ 6)%Z
    /\ (forall o, In o outcomes_ ->
          raises IntegrityError (snd o) = false ->
          exists l, links (fst o) = links db ++ [l]).
Proof.
  intros atof clk host url expiry db Hu outcomes_. subst outcomes_. unfold index.
  cbn [method form_url form_expiry_date form_field host_url]. split; [|split].
  - rewrite filter_map_length.
    rewrite (filter_length_ext _ (mem (map short_code (links db)))).
    + rewrite (common_count generate_short_code (map short_code (links db))).
      * rewrite filter_map_length. apply filter_length_ext.
        intros l _. apply eq_true_iff_eq. rewrite mem_In, is_generated_spec. reflexivity.
      * apply join_choices_NoDup, characters_NoDup.
      * exact Hu.
    + intros code _. apply eq_true_iff_eq. rewrite mem_In, in_map_iff.
      destruct (store_link_cases atof clk host url expiry code db)
        as [[Hex ->] | (Hex & Hfresh & ->)]; cbn [snd raises].
      * apply code_taken_iff in Hex. destruct Hex as (l & Hl & Hc).
        split; [intros _; now exists l | reflexivity].
      * split; [discriminate|]. intros (l & Hc & Hl). now elim (Hfresh l Hl).
  - rewrite length_map. fold generate_short_code.
    unfold generate_short_code. rewrite join_choices_length, Nat2Z.inj_pow.
    change (List.length characters) with 62%nat. reflexivity.
  - intros o Ho Hok. apply in_map_iff in Ho. destruct Ho as (code & <- & _).
    destruct (store_link_cases atof clk host url expiry code db)
      as [[_ E] | (_ & _ & E)]; rewrite E in *; [discriminate Hok|].
    eexists. reflexivity.
Qed.

Lemma index_collision_count_witness :
  unique_codes Sample.db
  /\ List.length
       (filter (fun o => raises IntegrityError (snd o))
          (index Sample.atof Sample.clk
             (mkIndexRequest POST (Some "https://rocq-prover.org") (Some "")
                "http://localhost:5000/") Sample.db))
     = 4%nat.
Proof.
  split; [exact sample_unique_codes|].
  exact (proj1 (index_collision_count Sample.atof Sample.clk "http://localhost:5000/"
                  "https://rocq-prover.org" "" Sample.db sample_unique_codes)).
Defined.

(* ------------------------------------------------------------------ *)
(** ** AUTOINCREMENT *)

Lemma fold_max_within (seq : Z) (ids : list Z) :
  Forall (fun x => (x <= seq)%Z) ids -> fold_right Z.max seq ids = seq.
Proof.
  induction 1 as [|x ids Hx _ IH]; cbn [fold_right]; [reflexivity|].
  rewrite IH. lia.
Qed.

Lemma next_rowid_within (db : database) :
  ids_within_seq db ->
  next_rowid (links_seq db) (map link_id (links db)) = (links_seq db + 1)%Z.
Proof.
  intros H. unfold next_rowid. rewrite fold_max_within; [reflexivity|].
  unfold ids_within_seq in H. rewrite Forall_forall in *.
  intros x Hx. apply in_map_iff in Hx. destruct Hx as (l & <- & Hl). now apply H.
Qed.

Lemma sweep_ids_within_seq utc_now db :
  ids_within_seq db -> ids_within_seq (delete_expired_links utc_now db).
Proof.
  unfold ids_within_seq. rewrite !Forall_forall. intros H l Hl.
  apply sweep_keeps_iff in Hl. now apply H.
Qed.

(** X9. Link ids are not reused.  When no row of the links table has an
    id above the table's counter, a link created after a sweep gets the
    counter plus one: an id greater than that of every link there was before
    the sweep, also of the links that the sweep deleted; and afterwards
    again no row has an id above the counter. *)
Theorem link_ids_are_not_reused :
  forall (atof : string -> number) (clk : clock) (utc_now : datetime)
         (host url expiry code : string) (db : database),
    ids_within_seq db ->
    (forall x, In x (links (delete_expired_links utc_now db)) -> short_code x <> code) ->
    let db' := fst (store_link atof clk host url expiry code
                      (delete_expired_links utc_now db)) in
    exists l,
      links db' = links (delete_expired_links utc_now db) ++ [l]
      /\ link_id l = (links_seq db + 1)%Z
      /\ (forall x, In x (links db) -> (link_id x < link_id l)%Z)
      /\ ids_within_seq db'.
Proof.
  intros atof clk utc_now host url expiry code db Hseq Hfresh db'. subst db'.
  pose proof (sweep_ids_within_seq utc_now db Hseq) as Hseq'.
  destruct (store_link_fresh atof clk host url expiry code _ Hfresh) as (id & -> & Hid).
  rewrite (next_rowid_within _ Hseq') in Hid. cbn [links_seq delete_expired_links] in Hid.
  change (links_seq (delete_expired_links utc_now db)) with (links_seq db) in Hid.
  eexists. cbn [fst links]. split; [reflexivity|]. cbn [link_id].
  split; [exact Hid|]. split.
  - intros x Hx. unfold ids_within_seq in Hseq. rewrite Forall_forall in Hseq.
    specialize (Hseq x Hx). lia.
  - unfold ids_within_seq in *. cbn [links links_seq]. apply Forall_app. split.
    + rewrite Forall_forall in *. intros x Hx. specialize (Hseq' x Hx).
      change (links_seq (delete_expired_links utc_now db)) with (links_seq db) in Hseq'.
      lia.
    + repeat constructor. cbn [link_id]. lia.
Qed.

Lemma link_ids_are_not_reused_witness :
  ids_within_seq Sample.db
  /\ exists l,
      links (fst (store_link Sample.atof Sample.clk "http://localhost:5000/"
                    "https://rocq-prover.org" "" "Zz9Zz9"
                    (delete_expired_links (mkDatetime 2024 1 2 0 0 0 0) Sample.db)))
      = links (delete_expired_links (mkDatetime 2024 1 2 0 0 0 0) Sample.db) ++ [l]
      /\ link_id l = 5%Z.
Proof.
  assert (Hseq : ids_within_seq Sample.db).
  { unfold ids_within_seq. repeat constructor; cbn; lia. }
  split; [exact Hseq|].
  destruct (link_ids_are_not_reused Sample.atof Sample.clk (mkDatetime 2024 1 2 0 0 0 0)
              "http://localhost:5000/" "https://rocq-prover.org" "" "Zz9Zz9"
              Sample.db Hseq) as (l & Hl & Hid & _).
  - simpl. intuition (subst; discriminate).
  - exists l. split; [exact Hl | exact Hid].
Defined.

(* ------------------------------------------------------------------ *)
(** ** Descending sorts *)

Section SortDesc.

Context {A : Type}.
Variable lt : A -> A -> bool.
Variable R : A -> A -> Prop.
Hypothesis lt_after : forall x r, lt x r = true -> R r x.
Hypothesis not_lt_before : forall x r, lt x r = false -> R x r.
Hypothesis R_trans : forall a b c, R a b -> R b c -> R a c.

Lemma insert_desc_by_perm (r : A) (rows : list A) :
  Permutation (insert_desc_by lt r rows) (r :: rows).
Proof.
  induction rows as [|x rows IH]; cbn [insert_desc_by]; [reflexivity|].
  destruct (lt r x); [|reflexivity]. rewrite IH. apply perm_swap.
Qed.

Lemma sort_desc_by_perm (rows : list A) : Permutation (sort_desc_by lt rows) rows.
Proof.
  induction rows as [|r rows IH]; cbn; [reflexivity|].
  now rewrite insert_desc_by_perm, IH.
Qed.

Lemma insert_desc_by_hd (a r : A) (rows : list A) :
  R a r -> HdRel R a rows -> HdRel R a (insert_desc_by lt r rows).
Proof.
  intros Har Hhd. destruct rows as [|x rows]; cbn [insert_desc_by].
  - now constructor.
  - destruct (lt r x); constructor; [|assumption]. now inversion Hhd.
Qed.

Lemma insert_desc_by_sorted (r : A) (rows : list A) :
  Sorted R rows -> Sorted R (insert_desc_by lt r rows).
Proof.
  induction 1 as [|x rows Hs IH Hhd]; cbn [insert_desc_by].
  - repeat constructor.
  - destruct (lt r x) eqn:E.
    + constructor; [assumption|]. apply insert_desc_by_hd; [|assumption].
      now apply lt_after.
    + constructor; [now constructor|]. constructor. now apply not_lt_before.
Qed.

Lemma sort_desc_by_sorted (rows : list A) : StronglySorted R (sort_desc_by lt rows).
Proof.
  apply Sorted_StronglySorted; [exact R_trans|].
  induction rows as [|r rows IH]; cbn; [constructor|].
  now apply insert_desc_by_sorted.
Qed.

Lemma strongly_sorted_app (l1 l2 : list A) :
  StronglySorted R (l1 ++ l2) ->
  StronglySorted R l1 /\ forall a b, In a l1 -> In b l2 -> R a b.
Proof.
  induction l1 as [|x l1 IH]; cbn [app]; intros Hs.
  - split; [constructor | intros a b []].
  - inversion Hs as [|y l Hs' Hall]; subst. destruct (IH Hs') as [Hs1 Hcross].
    rewrite Forall_forall in Hall. split.
    + constructor; [assumption|]. apply Forall_forall. intros z Hz.
      apply Hall. apply in_or_app. now left.
    + intros a b [<- | Ha] Hb; [|now apply Hcross].
      apply Hall. apply in_or_app. now right.
Qed.

End SortDesc.

Lemma order_by_clicks_perm (rows : list (string * Z)) :
  Permutation (order_by_clicks_desc rows) rows.
Proof. apply sort_desc_by_perm. Qed.

Lemma order_by_clicks_sorted (rows : list (string * Z)) :
  StronglySorted clicks_desc (order_by_clicks_desc rows).
Proof.
  apply sort_desc_by_sorted; unfold clicks_desc.
  - intros x r H. apply Z.ltb_lt in H. lia.
  - intros x r H. apply Z.ltb_ge in H. lia.
  - intros a b c. lia.
Qed.

Lemma order_by_clicked_at_perm (rows : list click) :
  Permutation (order_by_clicked_at_desc rows) rows.
Proof. apply sort_desc_by_perm. Qed.

Lemma order_by_clicked_at_sorted (rows : list click) :
  StronglySorted clicked_at_desc (order_by_clicked_at_desc rows).
Proof.
  apply sort_desc_by_sorted; unfold clicked_at_desc.
  - intros x r. apply ltb_leb.
  - intros x r. apply not_ltb_leb.
  - intros a b c. rewrite !leb_not_gt. intros Hab Hbc.
    now apply (compare_not_gt_trans _ (clicked_at b)).
Qed.

(* ------------------------------------------------------------------ *)
(** ** The statistics: active links *)

Lemma sum_of_cases {A : Type} (p : A -> bool) (l : list A) :
  fold_right Z.add 0%Z (map (fun x => if p x then 1%Z else 0%Z) l)
  = Z.of_nat (List.length (filter p l)).
Proof.
  induction l as [|x l IH]; [reflexivity|].
  cbn [map fold_right filter]. rewrite IH.
  destruct (p x); cbn [List.length]; lia.
Qed.

Lemma filter_twice {A : Type} (f g : A -> bool) (l : list A) :
  filter f (filter g l) = filter (fun x => g x && f x) l.
Proof.
  induction l as [|x l IH]; [reflexivity|].
  cbn [filter]. destruct (g x); cbn [filter andb]; [|assumption].
  destruct (f x); now rewrite IH.
Qed.

Lemma ltb_flip (s t : string) : s <> t -> String.ltb t s = negb (String.ltb s t).
Proof.
  intros Hne. unfold String.ltb. rewrite (String.compare_antisym t s).
  destruct (String.compare s t) eqn:E; cbn; try reflexivity.
  apply String.compare_eq_iff in E. contradiction.
Qed.

Lemma active_iff_kept_and_not_null (utc_now : datetime) (l : link) :
  expiry_date l <> SqlText (sqlite_datetime utc_now) ->
  where_true (sql_gt_text (expiry_date l) (sqlite_datetime utc_now))
  = negb (where_true (sql_lt_text (expiry_date l) (sqlite_datetime utc_now)))
    && negb (is_null (expiry_date l)).
Proof.
  intros Hne. destruct (expiry_date l) as [|x|s|b]; try reflexivity.
  cbn [sql_gt_text sql_lt_text is_null]. rewrite ltb_flip by congruence.
  now destruct (String.ltb s _).
Qed.

Lemma sql_sum_nonempty {A : Type} (f : A -> Z) (l : list A) :
  l <> [] -> sql_sum (map f l) = Some (fold_right Z.add 0%Z (map f l)).
Proof. destruct l; [congruence | reflexivity]. Qed.

(** X10. The count of active links of the statistics is NULL (None in
    Python) when the links table is empty.  Otherwise, provided no stored
    expiry is the very text of now, it is the number of links with a
    non-NULL expiry that a sweep at the same instant would keep: a link
    without expiry, whether NULL or blank, is never counted as active. *)
Theorem active_links_are_sweep_survivors :
  forall (utc_now : datetime) (db : database),
    (forall l, In l (links db) ->
               expiry_date l <> SqlText (sqlite_datetime utc_now)) ->
    (links db = [] -> active_links (get_system_stats utc_now db) = None)
    /\ (links db <> [] ->
        active_links (get_system_stats utc_now db)
        = Some (Z.of_nat (List.length
                  (filter (fun l => negb (is_null (expiry_date l)))
                          (links (delete_expired_links utc_now db))))))
    /\ (forall l, In l (links db) ->
          expiry_date l = SqlNull \/ expiry_date l = SqlText "" ->
          active_case utc_now l = 0%Z).
Proof.
  intros utc_now db Hne. unfold get_system_stats. cbn [working connect active_links].
  split; [intros ->; reflexivity|]. split.
  - intros Hnonempty. rewrite sql_sum_nonempty by assumption. f_equal.
    etransitivity;
      [apply (sum_of_cases
                (fun x => where_true (sql_gt_text (expiry_date x)
                                        (sqlite_datetime utc_now))))|].
    do 2 f_equal. rewrite delete_expired_links_links, filter_twice.
    apply filter_ext_in. intros x Hx. now apply active_iff_kept_and_not_null, Hne.
  - intros l _ [H | H]; unfold active_case; rewrite H; reflexivity.
Qed.

Lemma active_links_are_sweep_survivors_witness :
  active_links (get_system_stats Sample.noon Sample.db) = Some 2%Z.
Proof.
  apply (proj1 (proj2 (active_links_are_sweep_survivors Sample.noon Sample.db
           ltac:(simpl; intuition (subst; discriminate))))).
  discriminate.
Defined.

(* ------------------------------------------------------------------ *)
(** ** The statistics: popular links and total clicks *)

Section GroupingByCode.

Variable cs : list click.

Let add_code := fun groups r => add_to_code_group r groups.

Lemma add_to_code_group_new (r : link * option click) groups :
  (forall g, In g groups -> short_code (fst g) <> short_code (fst r)) ->
  add_to_code_group r groups = groups ++ [(fst r, [snd r])].
Proof.
  induction groups as [|[l acc] groups IH]; intros Hnew; [reflexivity|].
  cbn [add_to_code_group app].
  destruct (String.eqb_spec (short_code l) (short_code (fst r))) as [Heq|_].
  - elim (Hnew (l, acc) (or_introl eq_refl) Heq).
  - f_equal. apply IH. intros g Hg. apply Hnew. now right.
Qed.

Lemma add_to_code_group_last (l : link) (c : option click) acc groups :
  (forall g, In g groups -> short_code (fst g) <> short_code l) ->
  add_to_code_group (l, c) (groups ++ [(l, acc)]) = groups ++ [(l, acc ++ [c])].
Proof.
  induction groups as [|[l' acc'] groups IH]; intros Hnew;
    cbn [add_to_code_group app fst snd].
  - now rewrite String.eqb_refl.
  - destruct (String.eqb_spec (short_code l') (short_code l)) as [Heq|_].
    + elim (Hnew (l', acc') (or_introl eq_refl) Heq).
    + f_equal. apply IH. intros g Hg. apply Hnew. now right.
Qed.

Lemma fold_add_code_same_link (l : link) (rows acc : list (option click)) groups :
  (forall g, In g groups -> short_code (fst g) <> short_code l) ->
  fold_left add_code (map (pair l) rows) (groups ++ [(l, acc)])
  = groups ++ [(l, acc ++ rows)].
Proof.
  intros Hnew. revert acc. induction rows as [|c rows IH]; intros acc.
  - cbn. now rewrite app_nil_r.
  - cbn [map fold_left]. unfold add_code at 2.
    rewrite add_to_code_group_last by assumption.
    rewrite IH, <- app_assoc. reflexivity.
Qed.

Lemma fold_add_code_link (l : link) groups :
  (forall g, In g groups -> short_code (fst g) <> short_code l) ->
  fold_left add_code (map (pair l) (joined_clicks cs l)) groups
  = groups ++ [(l, joined_clicks cs l)].
Proof.
  intros Hnew. destruct (joined_clicks_nonempty cs l) as (c & rest & ->).
  cbn [map fold_left]. unfold add_code at 2.
  rewrite add_to_code_group_new by assumption. cbn [fst snd].
  now rewrite fold_add_code_same_link.
Qed.

Lemma fold_add_code_links (ls : list link) groups :
  NoDup (map (fun g => short_code (fst g)) groups ++ map short_code ls) ->
  fold_left add_code (left_join ls cs) groups
  = groups ++ map (fun l => (l, joined_clicks cs l)) ls.
Proof.
  revert groups. induction ls as [|l ls IH]; intros groups Hnd.
  - cbn. now rewrite app_nil_r.
  - rewrite left_join_cons, fold_left_app, fold_add_code_link.
    + rewrite IH.
      * rewrite <- app_assoc. reflexivity.
      * rewrite map_app. cbn [map fst]. rewrite <- app_assoc. exact Hnd.
    + intros g Hg Heq. apply NoDup_remove_2 in Hnd. apply Hnd.
      apply in_or_app. left. rewrite <- Heq.
      apply (in_map (fun g => short_code (fst g))). exact Hg.
Qed.

Lemma group_by_short_code_left_join (ls : list link) :
  NoDup (map short_code ls) ->
  group_by_short_code (left_join ls cs)
  = map (fun l => (l, joined_clicks cs l)) ls.
Proof. intros Hnd. exact (fold_add_code_links ls [] Hnd). Qed.

End GroupingByCode.

Lemma insert_by_code_perm (l : link) (ls : list link) :
  Permutation (insert_by_code l ls) (l :: ls).
Proof.
  induction ls as [|x ls IH]; cbn [insert_by_code]; [reflexivity|].
  destruct (String.ltb _ _); [|reflexivity]. rewrite IH. apply perm_swap.
Qed.

Lemma scan_short_code_index_perm (ls : list link) :
  Permutation (scan_short_code_index ls) ls.
Proof.
  induction ls as [|l ls IH]; cbn; [reflexivity|].
  now rewrite insert_by_code_perm, IH.
Qed.

Lemma popular_links_eq (utc_now : datetime) (db : database) :
  unique_codes db ->
  popular_links (get_system_stats utc_now db)
  = firstn 5 (order_by_clicks_desc
                (map (fun l => (short_code l, click_count db l))
                     (scan_short_code_index (links db)))).
Proof.
  intros Hu. unfold get_system_stats. cbn [working connect popular_links].
  rewrite group_by_short_code_left_join.
  - rewrite map_map. do 2 f_equal. apply map_ext. intros l.
    now rewrite count_non_null_joined.
  - apply (Permutation_NoDup (l := map short_code (links db))); [|exact Hu].
    apply Permutation_map, Permutation_sym, scan_short_code_index_perm.
Qed.

(** X11. Under the UNIQUE constraint on codes, the popular links of the
    statistics are the five most clicked links, or all links when there are
    fewer: each row is the code of a link with the number of its click
    rows, the rows are in descending order of that number, and no link that
    is left out has more clicks than a link that is listed. *)
Theorem popular_links_are_the_most_clicked :
  forall (utc_now : datetime) (db : database),
    unique_codes db ->
    let popular := popular_links (get_system_stats utc_now db) in
    List.length popular = Nat.min 5 (List.length (links db))
    /\ StronglySorted clicks_desc popular
    /\ (forall code n, In (code, n) popular ->
          exists l, In l (links db) /\ short_code l = code /\ n = click_count db l)
    /\ (forall l, In l (links db) ->
          ~ In (short_code l, click_count db l) popular ->
          forall row, In row popular -> (click_count db l <= snd row)%Z).
Proof.
  intros utc_now db Hu popular. subst popular. rewrite (popular_links_eq utc_now db Hu).
  set (rows := map (fun l => (short_code l, click_count db l))
                   (scan_short_code_index (links db))).
  pose proof (scan_short_code_index_perm (links db)) as Hscan.
  pose proof (order_by_clicks_perm rows) as Hperm.
  pose proof (order_by_clicks_sorted rows) as Hsorted.
  rewrite <- (firstn_skipn 5 (order_by_clicks_desc rows)) in Hsorted.
  apply strongly_sorted_app in Hsorted. destruct Hsorted as [Hfirst Hcross].
  split; [|split; [|split]].
  - rewrite length_firstn, (Permutation_length Hperm). unfold rows.
    now rewrite length_map, (Permutation_length Hscan).
  - exact Hfirst.
  - intros code n Hin.
    assert (Hin' : In (code, n) (order_by_clicks_desc rows)).
    { rewrite <- (firstn_skipn 5 (order_by_clicks_desc rows)).
      apply in_or_app. now left. }
    clear Hin. rename Hin' into Hin.
    apply (Permutation_in _ Hperm) in Hin. unfold rows in Hin.
    apply in_map_iff in Hin. destruct Hin as (l & [= <- <-] & Hl).
    apply (Permutation_in _ Hscan) in Hl. now exists l.
  - intros l Hl Hout row Hrow.
    assert (Hin : In (short_code l, click_count db l) (order_by_clicks_desc rows)).
    { apply (Permutation_in _ (Permutation_sym Hperm)). unfold rows.
      apply (in_map (fun l => (short_code l, click_count db l))).
      exact (Permutation_in _ (Permutation_sym Hscan) Hl). }
    rewrite <- (firstn_skipn 5 (order_by_clicks_desc rows)) in Hin.
    apply in_app_or in Hin. destruct Hin as [Hin | Hin]; [contradiction|].
    exact (Hcross row _ Hrow Hin).
Qed.

Lemma popular_links_are_the_most_clicked_witness :
  unique_codes Sample.db
  /\ List.length (popular_links (get_system_stats Sample.noon Sample.db)) = 4%nat.
Proof.
  split; [exact sample_unique_codes|].
  exact (proj1 (popular_links_are_the_most_clicked Sample.noon Sample.db
                  sample_unique_codes)).
Defined.

Lemma sum_counts_perm {A : Type} (r1 r2 : list (A * Z)) :
  Permutation r1 r2 -> sum_counts r1 = sum_counts r2.
Proof.
  unfold sum_counts. induction 1; cbn [map fold_right]; lia.
Qed.

Lemma matching_links_count (ls : list link) (code : string) :
  NoDup (map short_code ls) ->
  fold_right Z.add 0%Z
    (map (fun l => if String.eqb code (short_code l) then 1%Z else 0%Z) ls)
  = if existsb (fun l => String.eqb (short_code l) code) ls then 1%Z else 0%Z.
Proof.
  induction ls as [|l ls IH]; cbn [map fold_right existsb]; intros Hnd;
    [reflexivity|].
  inversion Hnd as [|x xs Hnotin Hnd']; subst. rewrite (IH Hnd').
  rewrite (String.eqb_sym code (short_code l)).
  destruct (String.eqb_spec (short_code l) code) as [Heq|_]; cbn [orb].
  - assert (H : existsb (fun l0 => String.eqb (short_code l0) code) ls = false).
    { destruct (existsb _ ls) eqn:E; [|reflexivity].
      apply existsb_exists in E. destruct E as (y & Hy & Hc).
      apply String.eqb_eq in Hc. elim Hnotin. rewrite Heq, <- Hc. now apply in_map. }
    now rewrite H.
  - now destruct (existsb _ ls).
Qed.

Lemma sum_map_add {A : Type} (f g : A -> Z) (l : list A) :
  fold_right Z.add 0%Z (map (fun x => (f x + g x)%Z) l)
  = (fold_right Z.add 0 (map f l) + fold_right Z.add 0 (map g l))%Z.
Proof. induction l as [|x l IH]; cbn [map fold_right]; lia. Qed.

Lemma sum_click_counts (ls : list link) (cl : list click) :
  NoDup (map short_code ls) ->
  (fold_right Z.add 0
     (map (fun l => Z.of_nat (List.length
             (filter (fun c => String.eqb (click_short_code c) (short_code l)) cl)))
          ls)
   + Z.of_nat (List.length
       (filter (fun c => negb (existsb (fun l => String.eqb (short_code l)
                                                  (click_short_code c)) ls))
               cl))
   = Z.of_nat (List.length cl))%Z.
Proof.
  intros Hnd. induction cl as [|c cl IH].
  - cbn [filter List.length]. induction ls as [|l ls IHl]; [reflexivity|].
    cbn [map fold_right]. inversion Hnd; subst. rewrite Z.add_0_l. now apply IHl.
  - rewrite (map_ext _
      (fun l => ((if String.eqb (click_short_code c) (short_code l) then 1 else 0)
                 + Z.of_nat (List.length
                     (filter (fun c0 => String.eqb (click_short_code c0) (short_code l))
                             cl)))%Z)).
    + rewrite sum_map_add, (matching_links_count ls (click_short_code c) Hnd).
      cbn [filter List.length].
      destruct (existsb _ ls); cbn [negb List.length]; lia.
    + intros l. cbn [filter].
      destruct (String.eqb (click_short_code c) (short_code l)); cbn [List.length]; lia.
Qed.

(** X12. Under the key constraints, the total of clicks of the
    statistics is the sum of the click counts that the listing shows plus
    the number of click rows whose code no link carries: the clicks of
    visits to unknown codes and of links that were swept are in the total
    but in no link's count. *)
Theorem total_clicks_is_listed_plus_dangling :
  forall (utc_now : datetime) (db : database),
    unique_codes db -> unique_ids db ->
    total_clicks (get_system_stats utc_now db)
    = (sum_counts (all_links db) + Z.of_nat (List.length (dangling_clicks db)))%Z.
Proof.
  intros utc_now db Hc Hi. unfold get_system_stats. cbn [working connect total_clicks].
  rewrite (all_links_eq db Hi).
  rewrite (sum_counts_perm _ _ (order_by_perm (list_all_with_click_counts_spec db))).
  unfold sum_counts, list_all_with_click_counts_spec, dangling_clicks.
  rewrite map_map. cbn [snd]. symmetry. apply (sum_click_counts (links db) (clicks db) Hc).
Qed.

Lemma total_clicks_is_listed_plus_dangling_witness :
  unique_codes Sample.db /\ unique_ids Sample.db
  /\ total_clicks (get_system_stats Sample.noon Sample.db) = (2 + 1)%Z.
Proof.
  split; [exact sample_unique_codes|]. split; [exact sample_unique_ids|].
  exact (total_clicks_is_listed_plus_dangling Sample.noon Sample.db
           sample_unique_codes sample_unique_ids).
Defined.

(** Links with equally many clicks are listed in the order of their codes,
    in which SQLite reads the index on [short_code]; here three links
    without clicks, stored in another order. *)
Example popular_links_ties :
  popular_links
    (get_system_stats Sample.noon
       {| links := [mkLink 1 "u" "b" SqlNull "2024-01-01 09:00:00";
                    mkLink 2 "v" "a" SqlNull "2024-01-01 09:00:00";
                    mkLink 3 "w" "Z" SqlNull "2024-01-01 09:00:00"];
          clicks := [mkClick 1 "b" "2024-01-01 09:40:00" None "curl"];
          links_seq := 3; clicks_seq := 1 |})
  = [("b", 1%Z); ("Z", 0%Z); ("a", 0%Z)].
Proof. reflexivity. Qed.

(* ------------------------------------------------------------------ *)
(** ** One link and its clicks *)

Lemma click_count_clicks_for (db : database) (l : link) :
  click_count db l = Z.of_nat (List.length (clicks_for (short_code l) db)).
Proof. reflexivity. Qed.

Lemma click_details_total (code : string) (db : database) :
  details_total_clicks (click_details code db)
  = Z.of_nat (List.length (clicks_for code db))
  /\ Permutation (details_clicks (click_details code db)) (clicks_for code db).
Proof.
  unfold click_details. cbn [working connect details_clicks details_total_clicks].
  fold (clicks_for code db).
  pose proof (order_by_clicked_at_perm (clicks_for code db)) as Hperm.
  split; [now rewrite (Permutation_length Hperm) | exact Hperm].
Qed.

(** X13. [click_details] hands over the click rows recorded for the code,
    all of them and only them, newest first, and their number as the total.
    For a code that no link carries the link is None and the handler still
    answers with the clicks recorded for that code; under the UNIQUE
    constraint the link is the one that carries the code, and the total is
    the count that the listing shows for it. *)
Theorem click_details_shows_the_clicks_of_the_code :
  forall (code : string) (db : database),
    Permutation (details_clicks (click_details code db)) (clicks_for code db)
    /\ StronglySorted clicked_at_desc (details_clicks (click_details code db))
    /\ details_total_clicks (click_details code db)
       = Z.of_nat (List.length (clicks_for code db))
    /\ ((forall l, In l (links db) -> short_code l <> code) ->
        details_link (click_details code db) = None)
    /\ (unique_codes db ->
        forall l, In l (links db) -> short_code l = code ->
          details_link (click_details code db) = Some l
          /\ details_total_clicks (click_details code db) = click_count db l).
Proof.
  intros code db. unfold click_details.
  cbn [working connect details_clicks details_total_clicks details_link].
  fold (clicks_for code db).
  pose proof (order_by_clicked_at_perm (clicks_for code db)) as Hperm.
  split; [exact Hperm|]. split; [apply order_by_clicked_at_sorted|].
  split; [now rewrite (Permutation_length Hperm)|]. split.
  - intros Habs. rewrite filter_none; [reflexivity|].
    intros l Hl. apply String.eqb_neq. now apply Habs.
  - intros Hu l Hl <-. rewrite filter_code_unique by assumption.
    split; [reflexivity|]. now rewrite (Permutation_length Hperm).
Qed.

Lemma click_details_shows_the_clicks_of_the_code_witness :
  details_link (click_details "nosuch" Sample.db) = None
  /\ details_total_clicks (click_details "x7Yz01" Sample.db) = 2%Z.
Proof.
  pose proof (click_details_shows_the_clicks_of_the_code "nosuch" Sample.db)
    as (_ & _ & _ & Hnone & _).
  pose proof (click_details_shows_the_clicks_of_the_code "x7Yz01" Sample.db)
    as (_ & _ & _ & _ & Hsome).
  split.
  - apply Hnone. simpl. intuition (subst; discriminate).
  - apply (Hsome sample_unique_codes Sample.morning); [simpl; tauto | reflexivity].
Defined.

(* ------------------------------------------------------------------ *)
(** ** What a visit changes in the pages *)

Lemma clicks_for_after_visit clk rq db code :
  clicks_for code (fst (redirect_to_original clk rq db))
  = clicks_for code db
    ++ (if String.eqb (req_short_code rq) code
        then [mkClick (next_rowid (clicks_seq db) (map click_id (clicks db)))
                      (req_short_code rq) (sqlite_datetime (utc clk))
                      (remote_addr rq) (user_agent_string rq)]
        else []).
Proof.
  rewrite redirect_database. unfold clicks_for, insert_click. cbn [clicks].
  rewrite filter_app. cbn [filter click_short_code].
  now destruct (String.eqb (req_short_code rq) code).
Qed.

Lemma click_count_after_visit clk rq db l :
  click_count (fst (redirect_to_original clk rq db)) l
  = (click_count db l
     + (if String.eqb (short_code l) (req_short_code rq) then 1 else 0))%Z.
Proof.
  rewrite !click_count_clicks_for, clicks_for_after_visit, length_app.
  rewrite (String.eqb_sym (req_short_code rq) (short_code l)).
  destruct (String.eqb (short_code l) (req_short_code rq)); cbn [List.length]; lia.
Qed.

Lemma insert_desc_map (f : link * Z -> link * Z) (r : link * Z) (rows : list (link * Z)) :
  (forall x, fst (f x) = fst x) ->
  insert_desc (f r) (map f rows) = map f (insert_desc r rows).
Proof.
  intros Hf. induction rows as [|x rows IH]; [reflexivity|].
  cbn [map insert_desc]. rewrite !Hf.
  destruct (String.ltb _ _); cbn [map]; [now rewrite IH | reflexivity].
Qed.

Lemma order_by_map (f : link * Z -> link * Z) (rows : list (link * Z)) :
  (forall x, fst (f x) = fst x) ->
  order_by_created_at_desc (map f rows) = map f (order_by_created_at_desc rows).
Proof.
  intros Hf. induction rows as [|r rows IH]; [reflexivity|].
  cbn [map order_by_created_at_desc fold_right].
  fold (order_by_created_at_desc (map f rows)) (order_by_created_at_desc rows).
  now rewrite IH, insert_desc_map.
Qed.

(** X14. A visit shows up in the pages as exactly one more click for the
    visited code: the total of [click_details] for that code grows by one
    and the totals for all other codes stay; the link that [click_details]
    shows is the same; and, the link ids being unique, the listing keeps its
    rows and their order, with the count of the link that carries the
    visited code one higher and all other counts unchanged. *)
Theorem visit_adds_one_click_to_the_pages :
  forall (clk : clock) (rq : redirect_request) (db : database) (code : string),
    let db' := fst (redirect_to_original clk rq db) in
    details_total_clicks (click_details code db')
    = (details_total_clicks (click_details code db)
       + (if String.eqb (req_short_code rq) code then 1 else 0))%Z
    /\ details_link (click_details code db') = details_link (click_details code db)
    /\ (unique_ids db ->
        all_links db'
        = map (fun r => (fst r,
                         if String.eqb (short_code (fst r)) (req_short_code rq)
                         then (snd r + 1)%Z else snd r))
              (all_links db)).
Proof.
  intros clk rq db code db'. subst db'. split; [|split].
  - destruct (click_details_total code
                (fst (redirect_to_original clk rq db))) as [-> _].
    destruct (click_details_total code db) as [-> _].
    rewrite clicks_for_after_visit, length_app.
    destruct (String.eqb (req_short_code rq) code); cbn [List.length]; lia.
  - unfold click_details. cbn [working connect details_link].
    now rewrite redirect_links_unchanged.
  - intros Hu.
    assert (Hu' : unique_ids (fst (redirect_to_original clk rq db))).
    { unfold unique_ids. now rewrite redirect_links_unchanged. }
    rewrite (all_links_eq _ Hu'), (all_links_eq db Hu).
    rewrite <- order_by_map by reflexivity. f_equal.
    unfold list_all_with_click_counts_spec.
    rewrite redirect_links_unchanged, map_map. apply map_ext. intros l.
    cbn [fst snd]. rewrite click_count_after_visit.
    destruct (String.eqb _ _); f_equal; lia.
Qed.

(** Clicks recorded within the same second are shown in the order in
    which they were recorded. *)
Example click_details_ties :
  map click_id
    (details_clicks
       (click_details "b"
          {| links := [];
             clicks := [mkClick 1 "b" "2024-01-01 09:40:00" None "curl";
                        mkClick 2 "b" "2024-01-01 09:40:00" None "wget";
                        mkClick 3 "b" "2024-01-01 09:41:00" None "x";
                        mkClick 4 "b" "2024-01-01 09:40:00" None "y"];
             links_seq := 0; clicks_seq := 4 |}))
  = [3; 1; 2; 4]%Z.
Proof. reflexivity. Qed.

(** Links created within the same second are listed in the order of their
    ids. *)
Example all_links_ties :
  map (fun r => link_id (fst r))
    (all_links
       {| links := [mkLink 1 "u" "b" SqlNull "2024-01-01 09:00:00";
                    mkLink 2 "v" "a" SqlNull "2024-01-01 09:00:01";
                    mkLink 3 "w" "Z" SqlNull "2024-01-01 09:00:00"];
          clicks := []; links_seq := 3; clicks_seq := 0 |})
  = [2; 1; 3]%Z.
Proof. reflexivity. Qed.

(* ------------------------------------------------------------------ *)
(** ** Clicks recorded before a link exists *)

(** X15. Clicks are recorded by code, whether or not a link carries it, so
    a new link starts with the clicks that were recorded for its code
    before it existed: right after it is created with a fresh code, the
    listing shows it with the number of click rows already there for that
    code. *)
Theorem new_link_inherits_recorded_clicks :
  forall (atof : string -> number) (clk : clock)
         (host url expiry code : string) (db : database),
    unique_ids db ->
    (forall x, In x (links db) -> short_code x <> code) ->
    exists l,
      links (fst (store_link atof clk host url expiry code db)) = links db ++ [l]
      /\ short_code l = code
      /\ In (l, Z.of_nat (List.length (clicks_for code db)))
            (all_links (fst (store_link atof clk host url expiry code db))).
Proof.
  intros atof clk host url expiry code db Hu Hfresh.
  destruct (store_link_fresh atof clk host url expiry code db Hfresh) as (id & E & Hid).
  rewrite E. cbn [fst]. eexists. split; [reflexivity|]. split; [reflexivity|].
  match goal with |- In _ (all_links ?d) => set (db' := d) end.
  assert (Hu' : unique_ids db').
  { unfold unique_ids, db'. cbn [links]. rewrite map_app. cbn [map link_id].
    apply NoDup_app; [assumption | repeat constructor; simpl; tauto |].
    intros a Ha [Heq | []]. subst a id. now apply next_rowid_fresh in Ha. }
  rewrite (all_links_eq db' Hu').
  apply (Permutation_in _ (Permutation_sym (order_by_perm _))).
  unfold list_all_with_click_counts_spec.
  apply in_map_iff.
  match goal with |- exists x, _ = (?new, _) /\ _ => exists new end.
  split; [unfold click_count, clicks_for; reflexivity|].
  unfold db'. cbn [links]. apply in_or_app. right. now left.
Qed.

Lemma new_link_inherits_recorded_clicks_witness :
  unique_ids Sample.db
  /\ exists l,
      short_code l = "nosuch"
      /\ In (l, 1%Z)
            (all_links (fst (store_link Sample.atof Sample.clk "http://localhost:5000/"
                               "https://rocq-prover.org" "" "nosuch" Sample.db))).
Proof.
  split; [exact sample_unique_ids|].
  destruct (new_link_inherits_recorded_clicks Sample.atof Sample.clk "http://localhost:5000/"
              "https://rocq-prover.org" "" "nosuch" Sample.db sample_unique_ids)
    as (l & _ & Hc & Hin).
  - simpl. intuition (subst; discriminate).
  - exists l. split; [exact Hc | exact Hin].
Defined.

(* ------------------------------------------------------------------ *)
(** ** Sweeps in sequence *)

Lemma filter_subsumed {A : Type} (f g : A -> bool) (l : list A) :
  (forall x, f x = true -> g x = true) ->
  filter f (filter g l) = filter f l.
Proof.
  intros H. induction l as [|x l IH]; [reflexivity|].
  cbn [filter]. destruct (g x) eqn:Eg; cbn [filter].
  - destruct (f x); now rewrite IH.
  - destruct (f x) eqn:Ef; [|assumption]. apply H in Ef. congruence.
Qed.

Lemma ltb_leb_trans (s t1 t2 : string) :
  String.ltb s t1 = true -> String.compare t1 t2 <> Gt -> String.ltb s t2 = true.
Proof.
  unfold String.ltb. intros Hlt Hle.
  destruct (String.compare s t1) eqn:E1; try discriminate.
  assert (Hs : String.compare s t2 <> Gt).
  { apply (compare_not_gt_trans s t1 t2); congruence. }
  destruct (String.compare s t2) eqn:E2; try congruence.
  apply String.compare_eq_iff in E2. subst t2.
  rewrite (String.compare_antisym t1 s), E1 in Hle. cbn in Hle. congruence.
Qed.

Lemma kept_later_kept_earlier (now1 now2 : datetime) (l : link) :
  String.compare (sqlite_datetime now1) (sqlite_datetime now2) <> Gt ->
  negb (where_true (sql_lt_text (expiry_date l) (sqlite_datetime now2))) = true ->
  negb (where_true (sql_lt_text (expiry_date l) (sqlite_datetime now1))) = true.
Proof.
  intros Hle. destruct (expiry_date l) as [|x|s|b]; try (intros H; exact H).
  cbn [sql_lt_text where_true].
  destruct (String.ltb s (sqlite_datetime now1)) eqn:E1; [|reflexivity].
  now rewrite (ltb_leb_trans _ _ _ E1 Hle).
Qed.

(** X16. Sweeps only ever remove links and a later sweep subsumes an
    earlier one: sweeping at a time and then at a time that is not earlier
    leaves the same database as the later sweep alone, so every link that
    survives the later sweep survived the earlier one; in particular a sweep
    repeated at the same instant changes nothing.  A sweep never touches
    the clicks table. *)
Theorem later_sweep_subsumes_earlier :
  forall (now1 now2 : datetime) (db : database),
    valid_datetime now1 = true -> valid_datetime now2 = true ->
    tuple_compare (second_key now1) (second_key now2) <> Gt ->
    delete_expired_links now2 (delete_expired_links now1 db)
    = delete_expired_links now2 db
    /\ (forall l, In l (links (delete_expired_links now2 db)) ->
                  In l (links (delete_expired_links now1 db)))
    /\ clicks (delete_expired_links now1 db) = clicks db.
Proof.
  intros now1 now2 db H1 H2 Hle.
  rewrite <- (sqlite_datetime_compare now1 now2 H1 H2) in Hle.
  split; [|split; [|reflexivity]].
  - unfold delete_expired_links, delete_where_expired, leave_with, commit,
      execute, connect. cbn [fst committed working links clicks links_seq clicks_seq].
    f_equal. apply filter_subsumed. intros l. now apply kept_later_kept_earlier.
  - intros l. rewrite !sweep_keeps_iff. intros [Hin Hk]. split; [assumption|].
    apply negb_true_iff. apply (kept_later_kept_earlier now1 now2 l Hle).
    now apply negb_true_iff.
Qed.

Lemma later_sweep_subsumes_earlier_witness :
  delete_expired_links (mkDatetime 2024 1 2 0 0 0 0)
    (delete_expired_links Sample.noon Sample.db)
  = delete_expired_links (mkDatetime 2024 1 2 0 0 0 0) Sample.db.
Proof.
  apply (proj1 (later_sweep_subsumes_earlier Sample.noon (mkDatetime 2024 1 2 0 0 0 0)
                  Sample.db eq_refl eq_refl ltac:(discriminate))).
Defined.

(* ------------------------------------------------------------------ *)
(** ** The module when it is imported *)

Lemma step_hour_running (p : process) (t : datetime) :
  sched p = {| jobs := [mkJob 1 1]; running := true |} ->
  step p (HourElapsed t)
  = {| todo := todo p; sched := sched p;
       store := option_map (delete_expired_links t) (store p);
       log := log p ++ [Swept t (table_exists (store p))] |}.
Proof.
  intros Hs. destruct p as [td sc st lg]. cbn [sched] in Hs. subst sc.
  reflexivity.
Qed.

Lemma step_hour_at_module (k : nat) (p : process) (t : datetime) :
  (k <= 3)%nat -> at_module_statement k p ->
  step p (HourElapsed t)
  = if (3 <=? k)%nat
    then {| todo := todo p; sched := sched p;
            store := option_map (delete_expired_links t) (store p);
            log := log p ++ [Swept t (table_exists (store p))] |}
    else p.
Proof.
  intros Hk (Ht & Hs & Hm). destruct p as [td sc st lg].
  cbn [todo sched log store] in *. rewrite Hs.
  do 4 (destruct k as [|k]; [reflexivity|]). lia.
Qed.

Lemma step_timer_at_module (k : nat) (p : process) (t : datetime) :
  (k <= 3)%nat -> at_module_statement k p ->
  at_module_statement k (step p (HourElapsed t))
  /\ (store p = None -> store (step p (HourElapsed t)) = None).
Proof.
  intros Hk Hat. rewrite (step_hour_at_module k p t Hk Hat).
  destruct (3 <=? k)%nat; [|split; [exact Hat | tauto]].
  destruct Hat as (Ht & Hs & Hm). unfold at_module_statement.
  cbn [todo sched log store]. rewrite main_events_app. cbn.
  rewrite app_nil_r. split; [now repeat split|]. now intros ->.
Qed.

Lemma step_main_at_module (k : nat) (p : process) :
  (k <= 3)%nat -> at_module_statement k p ->
  at_module_statement (Nat.min 3 (S k)) (step p MainStep)
  /\ store (step p MainStep) = store p.
Proof.
  intros Hk (Ht & Hs & Hm). unfold at_module_statement. cbn [step]. rewrite Ht.
  do 4 (destruct k as [|k];
        [cbn in *; rewrite ?main_events_app, ?Hs, ?Hm; cbn;
         repeat split; assumption|]).
  lia.
Qed.

Lemma run_at_module_statement (store0 : option database) (inputs : list input) :
  exists k, (k <= 3)%nat
            /\ at_module_statement k (run (boot false store0) inputs)
            /\ (store0 = None -> store (run (boot false store0) inputs) = None).
Proof.
  induction inputs as [|i inputs IH] using rev_ind.
  - exists 0%nat. split; [lia|]. split; [now repeat split | tauto].
  - destruct IH as (k & Hk & Hat & Hst). rewrite run_snoc. destruct i as [|t].
    + exists (Nat.min 3 (S k)). split; [lia|].
      destruct (step_main_at_module k _ Hk Hat) as [Hat' Hst'].
      split; [exact Hat'|]. rewrite Hst'. exact Hst.
    + exists k. split; [assumption|].
      destruct (step_timer_at_module k _ t Hk Hat) as [Hat' Hst'].
      split; [exact Hat'|]. intros H0. apply Hst'. now apply Hst.
Qed.

Lemma timer_inputs_snoc (inputs : list input) (i : input) :
  timer_inputs (inputs ++ [i])
  = (timer_inputs inputs
     + match i with HourElapsed _ => 1 | MainStep => 0 end)%nat.
Proof.
  unfold timer_inputs. rewrite filter_app, length_app. now destruct i.
Qed.

Lemma started_module_keeps_sweeping (p : process) (more : list input) :
  todo p = [] -> sched p = {| jobs := [mkJob 1 1]; running := true |} ->
  todo (run p more) = []
  /\ sched (run p more) = {| jobs := [mkJob 1 1]; running := true |}
  /\ sweeps (log (run p more)) = (sweeps (log p) + timer_inputs more)%nat.
Proof.
  intros Ht Hs. induction more as [|i more (IHt & IHs & IHw)] using rev_ind.
  - cbn. repeat split; try assumption. unfold timer_inputs. cbn. lia.
  - rewrite run_snoc, timer_inputs_snoc. destruct i as [|t].
    + cbn [step]. rewrite IHt. repeat split; try assumption. lia.
    + rewrite (step_hour_running _ t IHs). cbn [todo sched log].
      rewrite sweeps_app, IHw. repeat split; try assumption. cbn. lia.
Qed.

(** X17. When the module is imported instead of run as a script (under a
    WSGI server, say), the process never initialises the store and never
    shuts the scheduler down: a database file without tables stays without
    tables, and once the scheduler was started it keeps running, so that
    every expiry of the interval runs the sweep, whether or not the table
    exists. *)
Theorem imported_module_never_initialises_nor_stops :
  forall (store0 : option database) (inputs : list input),
    let p := run (boot false store0) inputs in
    ~ In StoreInitialized (log p)
    /\ ~ In SchedulerStopped (log p)
    /\ (store0 = None -> store p = None)
    /\ (running (sched p) = true ->
        forall more,
          running (sched (run p more)) = true
          /\ sweeps (log (run p more)) = (sweeps (log p) + timer_inputs more)%nat).
Proof.
  intros store0 inputs p.
  destruct (run_at_module_statement store0 inputs) as (k & Hk & (Ht & Hs & Hm) & Hst).
  fold p in Ht, Hs, Hm, Hst.
  assert (Hno : forall e, is_main_event e = true -> In e (log p) ->
                          In e (log (after_module_steps k))).
  { intros e He Hin. rewrite <- Hm. exact (proj1 (in_main_events e _ He) Hin). }
  split; [|split; [|split]].
  - intros Hin. apply (Hno StoreInitialized eq_refl) in Hin.
    do 4 (destruct k as [|k]; [cbn in Hin; intuition discriminate|]). lia.
  - intros Hin. apply (Hno SchedulerStopped eq_refl) in Hin.
    do 4 (destruct k as [|k]; [cbn in Hin; intuition discriminate|]). lia.
  - exact Hst.
  - intros Hrun more. rewrite Hs in Hrun.
    assert (k = 3)%nat as ->.
    { do 3 (destruct k as [|k]; [discriminate Hrun|]). lia. }
    destruct (started_module_keeps_sweeping p more) as (_ & Hs' & Hw).
    + now rewrite Ht.
    + now rewrite Hs.
    + rewrite Hs'. split; [reflexivity | exact Hw].
Qed.

Lemma imported_module_never_initialises_nor_stops_witness :
  store (run (boot false None)
           [MainStep; MainStep; MainStep; MainStep;
            HourElapsed Sample.noon; MainStep]) = None.
Proof.
  apply (proj1 (proj2 (proj2 (imported_module_never_initialises_nor_stops None
           [MainStep; MainStep; MainStep; MainStep;
            HourElapsed Sample.noon; MainStep])))).
  reflexivity.
Defined.
